(** * tracing01-xdp-simple/trace_load_and_stats.c

    A shallow embedding of the XDP tracepoint loader and statistics poller,
    and the properties of its load pipeline, schema check and polling loop.

    The program talks to libbpf, the kernel and libc.  Those are modelled as
    an interface of operations over an abstract world state [K]; every call
    the program makes is also recorded, in order, in a trace of events, so
    that properties such as "the object is closed on the error path" or "the
    next-key call restarts from NULL" can be stated on what the program did.
    Loops that need not terminate ([while (true)] in [stats_print],
    [while (1)] in [stats_poll]) take a fuel argument that bounds the number
    of iterations; a run that exhausts it has no return value.  A run in
    which the process is killed has none either: [stats_print] puts an
    array of as many slots as there are possible CPUs on the stack, and
    when the stack cannot hold it no further call is made, whatever the
    fuel. *)

From Stdlib Require Import ZArith List String Ascii Bool Lia.
From Stdlib Require DecimalString HexadecimalString DecimalZ.
From Stdlib Require Import Permutation.
Import ListNotations.
Local Open Scope string_scope.
Local Open Scope Z_scope.
Local Open Scope list_scope.

(** ** Machine integers *)

(** [unsigned int] / [__u32]. *)
Definition to_u32 (z : Z) : Z := z mod 2 ^ 32.

(** [int] / [__s32]. *)
Definition to_s32 (z : Z) : Z :=
  let u := z mod 2 ^ 32 in if u <? 2 ^ 31 then u else u - 2 ^ 32.

(** [unsigned long long] / [__u64]. *)
Definition to_u64 (z : Z) : Z := z mod 2 ^ 64.

(** ** String literals

    The program's string literals have no escape sequence other than the
    newline, at their ends: [nl] is the C literal of a newline alone and
    [ln s] the literal [s] followed by a newline. *)
Definition nl : string := String "010" EmptyString.

Definition ln (s : string) : string := String.append s nl.

(** ** printf

    The program's calls to [printf] and [fprintf] are kept in the trace as
    the format string and the argument values.  [sprintf] gives the text
    glibc produces for the directives the program uses: [%s], [%d],
    [%llu], [%X], and the ['] flag, which groups the digits of a decimal
    conversion with the thousands separator of the LC_NUMERIC locale
    (the empty string in the C locale, a comma in en_US). *)

Inductive printf_arg : Type :=
| ArgStr (s : option string)   (* a [char *]; [None] is NULL *)
| ArgInt (v : Z).

Module Fmt.

Definition dec (n : Z) : string :=
  DecimalString.NilZero.string_of_int (Z.to_int n).

Definition upper (c : ascii) : ascii :=
  let n := nat_of_ascii c in
  if ((97 <=? n) && (n <=? 122))%nat then ascii_of_nat (n - 32) else c.

Fixpoint map_string (f : ascii -> ascii) (s : string) : string :=
  match s with
  | EmptyString => EmptyString
  | String c r => String (f c) (map_string f r)
  end.

Definition hex_upper (n : Z) : string :=
  map_string upper
    (HexadecimalString.NilZero.string_of_uint (N.to_hex_uint (Z.to_N n))).

(** Digits are grouped by three from the right. *)
Fixpoint group (sep : string) (digits : string) : string :=
  match digits with
  | EmptyString => EmptyString
  | String c r =>
      let n := String.length r in
      String c (if ((0 <? n) && (n mod 3 =? 0))%nat
                then String.append sep (group sep r)
                else group sep r)
  end.

Record conv := { grouping : bool; longs : nat }.

Definition udec (sep : string) (c : conv) (v : Z) : string :=
  let n := match longs c with O => to_u32 v | _ => to_u64 v end in
  if grouping c then group sep (dec n) else dec n.

Definition sdec (sep : string) (c : conv) (v : Z) : string :=
  let n := match longs c with
           | O => to_s32 v
           | _ => let u := to_u64 v in if u <? 2 ^ 63 then u else u - 2 ^ 64
           end in
  if n <? 0
  then String "-" (if grouping c then group sep (dec (- n)) else dec (- n))
  else if grouping c then group sep (dec n) else dec n.

Definition next_int (args : list printf_arg) : Z :=
  match args with ArgInt v :: _ => v | _ => 0 end.

Definition next_str (args : list printf_arg) : string :=
  match args with ArgStr (Some s) :: _ => s | _ => "(null)" end.

(** [spec] is [None] in literal text and [Some c] after a [%]. *)
Fixpoint sprintf_from (sep : string) (spec : option conv) (fmt : string)
    (args : list printf_arg) : string :=
  match fmt with
  | EmptyString => EmptyString
  | String ch rest =>
      match spec with
      | None =>
          if Ascii.eqb ch "%"
          then sprintf_from sep (Some {| grouping := false; longs := 0 |})
                 rest args
          else String ch (sprintf_from sep None rest args)
      | Some c =>
          if Ascii.eqb ch "'" then
            sprintf_from sep
              (Some {| grouping := true; longs := longs c |}) rest args
          else if Ascii.eqb ch "l" then
            sprintf_from sep
              (Some {| grouping := grouping c; longs := S (longs c) |})
              rest args
          else if Ascii.eqb ch "s" then
            String.append (next_str args)
              (sprintf_from sep None rest (tl args))
          else if Ascii.eqb ch "d" then
            String.append (sdec sep c (next_int args))
              (sprintf_from sep None rest (tl args))
          else if Ascii.eqb ch "u" then
            String.append (udec sep c (next_int args))
              (sprintf_from sep None rest (tl args))
          else if Ascii.eqb ch "X" then
            String.append (hex_upper (to_u32 (next_int args)))
              (sprintf_from sep None rest (tl args))
          else String ch (sprintf_from sep None rest args)
      end
  end.

Definition sprintf (sep : string) (fmt : string) (args : list printf_arg)
  : string :=
  sprintf_from sep None fmt args.

End Fmt.

(** ** Data *)

(** The fields of [struct bpf_map_info] the program reads. *)
Record bpf_map_info : Type := {
  type : Z;
  id : Z;
  key_size : Z;
  value_size : Z;
  max_entries : Z;
  name : string
}.

(** [struct bpf_map_info x = { 0 }]. *)
Definition bpf_map_info_zero : bpf_map_info :=
  {| type := 0; id := 0; key_size := 0; value_size := 0; max_entries := 0;
     name := "" |}.

(** The part of [struct config] the program reads. *)
Record config : Type := { filename : string }.

(** What libbpf returns where it returns a pointer that is to be tested with
    [libbpf_get_error]: a valid pointer, for which [libbpf_get_error] is 0,
    or an error with its non-zero code. *)
Inductive libbpf_ptr : Type :=
| ValidPtr (p : Z)
| ErrPtr (err : Z).

Inductive stream : Type := stdout | stderr.

Definition ENOENT : Z := 2.

(** ** Events *)

Inductive event : Type :=
| EvOpenFile (path : string) (res : libbpf_ptr)
| EvLoad (obj : Z) (err : Z)
| EvNextProgram (obj : Z) (prog : option Z)
| EvAttachTracepoint (prog : Z) (category tp_name : string) (res : libbpf_ptr)
| EvClose (obj : Z)
| EvFindMapByName (obj : Z) (mapname : string) (map : option Z)
| EvMapFd (map : Z) (fd : Z)
| EvGetInfoByFd (fd : Z) (res : bpf_map_info + Z)
| EvNumPossibleCpus (ret : Z)
| EvGetNextKey (fd : Z) (prev : option Z) (res : Z + Z)
| EvLookupElem (fd : Z) (k : Z) (buflen : Z) (res : option (list Z))
| EvIfIndexToName (ifindex : Z) (res : option string)
| EvSetlocale (category locale : string)
| EvSleep (seconds : Z)
| EvPrintf (out : stream) (fmt : string) (args : list printf_arg).

Definition trace : Type := list event.

(** The text a trace writes to a stream. *)
Fixpoint output (sep : string) (out : stream) (t : trace) : string :=
  match t with
  | [] => EmptyString
  | EvPrintf o fmt args :: t' =>
      match o, out with
      | stdout, stdout | stderr, stderr =>
          String.append (Fmt.sprintf sep fmt args) (output sep out t')
      | _, _ => output sep out t'
      end
  | _ :: t' => output sep out t'
  end.

(** ** The environment: libbpf, the kernel, libc and the stack

    Every operation takes the world state and returns its result with the
    next world state, so a concurrent writer of the table, a changing CPU
    count or a failing system call are instances of the interface.  The
    last two fields are the stack the process runs on: how many bytes it
    can still grow by when [stats_print] is entered, and what its 8-byte
    words hold there, which is what an array that is not initialised
    reads as. *)
Record libbpf (K : Type) : Type := {
  bpf_object__open_file : string -> K -> libbpf_ptr * K;
  bpf_object__load : Z -> K -> Z * K;
  (* [bpf_object__next_program (obj, NULL)] *)
  bpf_object__next_program : Z -> K -> option Z * K;
  bpf_program__attach_tracepoint : Z -> string -> string -> K -> libbpf_ptr * K;
  bpf_object__close : Z -> K -> K;
  bpf_object__find_map_by_name : Z -> string -> K -> option Z * K;
  bpf_map__fd : Z -> K -> Z * K;
  (* the struct written on success, or errno *)
  bpf_obj_get_info_by_fd : Z -> K -> (bpf_map_info + Z) * K;
  libbpf_num_possible_cpus : K -> Z * K;
  (* previous key (NULL is [None]); the key written on success, or errno *)
  bpf_map_get_next_key : Z -> option Z -> K -> (Z + Z) * K;
  (* the per-CPU slots written to the buffer on success *)
  bpf_map_lookup_elem : Z -> Z -> K -> option (list Z) * K;
  if_indextoname : Z -> K -> option string * K;
  setlocale : string -> string -> K -> K;
  sleep : Z -> K -> K;
  strerror : Z -> string;
  stack_room : K -> Z;
  stack_word : K -> nat -> Z
}.

Arguments bpf_object__open_file {K}.
Arguments bpf_object__load {K}.
Arguments bpf_object__next_program {K}.
Arguments bpf_program__attach_tracepoint {K}.
Arguments bpf_object__close {K}.
Arguments bpf_object__find_map_by_name {K}.
Arguments bpf_map__fd {K}.
Arguments bpf_obj_get_info_by_fd {K}.
Arguments libbpf_num_possible_cpus {K}.
Arguments bpf_map_get_next_key {K}.
Arguments bpf_map_lookup_elem {K}.
Arguments if_indextoname {K}.
Arguments setlocale {K}.
Arguments sleep {K}.
Arguments strerror {K}.
Arguments stack_room {K}.
Arguments stack_word {K}.

(** The exit codes of common/common_defines.h, which the program includes
    through common_params.h.  The header is not among the sources: the
    codes are parameters of the program. *)
Record exit_codes : Type := {
  EXIT_OK : Z;
  EXIT_FAIL : Z;
  EXIT_FAIL_BPF : Z
}.

(** ** The monad: world state, trace of events, and fuel *)

Module Run.

(** A computation returns the events it emitted, the world it left and
    its value; the value is [None] when control does not come back: a loop
    ran out of fuel, or the process was killed. *)
Definition M (K A : Type) : Type := K -> trace * K * option A.

Definition ret {K A} (a : A) : M K A := fun k => ([], k, Some a).

Definition bind {K A B} (m : M K A) (f : A -> M K B) : M K B :=
  fun k =>
    match m k with
    | (t1, k1, None) => (t1, k1, None)
    | (t1, k1, Some a) =>
        match f a k1 with
        | (t2, k2, r) => (t1 ++ t2, k2, r)
        end
    end.

Definition out_of_fuel {K A} : M K A := fun k => ([], k, None).

(** The process is killed by a signal: it makes no further call. *)
Definition killed {K A} : M K A := fun k => ([], k, None).

(** A call that returns a result. *)
Definition call {K R} (op : K -> R * K) (ev : R -> event) : M K R :=
  fun k => match op k with (r, k') => ([ev r], k', Some r) end.

(** A call whose result the program does not use. *)
Definition call_ {K} (op : K -> K) (ev : event) : M K unit :=
  fun k => ([ev], op k, Some tt).

Definition fprintf {K} (out : stream) (fmt : string)
    (args : list printf_arg) : M K unit :=
  fun k => ([EvPrintf out fmt args], k, Some tt).

Definition events {K A} (r : trace * K * option A) : trace := fst (fst r).
Definition world {K A} (r : trace * K * option A) : K := snd (fst r).
Definition value {K A} (r : trace * K * option A) : option A := snd r.

(** How an iteration of a loop ends: [continue] or falling off the end
    of the body, or [break]. *)
Inductive ctl : Type := Continue | Break.

(** [while (true) body], at most [fuel] iterations. *)
Fixpoint while_true {K S} (fuel : nat) (body : S -> M K (ctl * S)) (s : S)
  : M K S :=
  match fuel with
  | O => out_of_fuel
  | S fuel' =>
      bind (body s) (fun cs =>
        match fst cs with
        | Break => ret (snd cs)
        | Continue => while_true fuel' body (snd cs)
        end)
  end.

End Run.

Import Run.

Declare Scope run_scope.
Delimit Scope run_scope with run.
Notation "x <- m ;; f" := (bind m (fun x => f))
  (at level 61, m at next level, right associativity) : run_scope.
Notation "m ;;; f" := (bind m (fun _ => f))
  (at level 61, right associativity) : run_scope.
Local Open Scope run_scope.

(** ** The program *)

(** [prev_keyp] in [stats_print] is NULL or holds the address of the local
    [key]. *)
Inductive keyptr : Type := NULLp | AddrOfKey.

(** The locals of [stats_print] that live across iterations: [key],
    [prev_keyp] and the content of the array [values], one element for
    each of its [nr_cpus] slots. *)
Record scan_locals : Type := {
  key : Z;
  prev_keyp : keyptr;
  values : list Z
}.

(** What the array holds after [bpf_map_lookup_elem] wrote the slots
    [written] to its start: the slots written, then the old content of the
    others.  The kernel writes one slot for each possible CPU when the
    table is a per-CPU one, and a single slot when it is not.  A read that
    writes more slots than the array has overruns it, and C does not
    define what the program does from then on: the model keeps the slots
    that fit, and the properties that speak of totals are stated of reads
    that fit. *)
Fixpoint copy_out (written buffer : list Z) {struct buffer} : list Z :=
  match buffer with
  | [] => []
  | old :: buffer' =>
      match written with
      | [] => buffer
      | v :: written' => v :: copy_out written' buffer'
      end
  end.

(** [map_expect] as [main] fills it: [{ 0 }], then the key size
    [sizeof(__s32)] and the value size [sizeof(__u64)]; max entries and
    type stay unchecked. *)
Definition map_expect : bpf_map_info :=
  {| type := 0; id := 0; key_size := 4; value_size := 8; max_entries := 0;
     name := "" |}.

Section Program.

Context {K : Type}.
Variable env : libbpf K.
Variable codes : exit_codes.

(** [find_map_fd]: -1 when the object has no map of that name. *)
Definition find_map_fd (bpf_obj : Z) (mapname : string) : M K Z :=
  map <- call (bpf_object__find_map_by_name env bpf_obj mapname)
              (EvFindMapByName bpf_obj mapname) ;;
  match map with
  | None =>
      fprintf stderr (ln "ERR: cannot find map by name: %s")
        [ArgStr (Some mapname)] ;;;
      ret (-1)
  | Some map => call (bpf_map__fd env map) (EvMapFd map)
  end.

(** *** stats_print *)

(** What [bpf_map_get_next_key] reads through [prev_keyp]. *)
Definition deref (p : keyptr) (l : scan_locals) : option Z :=
  match p with
  | NULLp => None
  | AddrOfKey => Some (key l)
  end.

(** [for (i = 0; i < nr_cpus; i++) total += values[i];] with [total]
    starting at 0.  The array has [nr_cpus] slots, so that every [i] of
    the loop is one of its indices. *)
Definition sum_values (nr_cpus : Z) (values : list Z) : Z :=
  fold_left (fun total i => to_u64 (total + nth i values 0))
            (seq 0 (Z.to_nat nr_cpus)) 0.

(** One iteration of the [while (true)] of [stats_print].  The call
    [bpf_map_get_next_key (map_fd, prev_keyp, keyp)] reads the previous
    key through [prev_keyp] and writes the next one to [key]; once
    [prev_keyp = keyp] both are the same cell.  [err] is assigned and
    never read after the loop: exhaustion (ENOENT) and any other error
    both leave the loop. *)
Definition scan_body (map_fd : Z) (nr_cpus : Z) (l : scan_locals)
  : M K (ctl * scan_locals) :=
  let prev := deref (prev_keyp l) l in
  r <- call (bpf_map_get_next_key env map_fd prev)
            (EvGetNextKey map_fd prev) ;;
  match r with
  | inr errno => ret (Break, l)
  | inl k =>
      let l := {| key := k; prev_keyp := prev_keyp l; values := values l |} in
      v <- call (bpf_map_lookup_elem env map_fd (key l))
                (EvLookupElem map_fd (key l) nr_cpus) ;;
      match v with
      | None =>
          fprintf stderr (ln "ERR: bpf_map_lookup_elem failed key:0x%X")
            [ArgInt (key l)] ;;;
          ret (Continue, l)
      | Some written =>
          let l := {| key := key l; prev_keyp := prev_keyp l;
                      values := copy_out written (values l) |} in
          let total := sum_values nr_cpus (values l) in
          dev <- call (if_indextoname env (to_u32 (key l)))
                      (EvIfIndexToName (to_u32 (key l))) ;;
          fprintf stdout "%s (%llu) " [ArgStr dev; ArgInt total] ;;;
          ret (Continue, {| key := key l; prev_keyp := AddrOfKey;
                            values := values l |})
      end
  end.

(** The locals on entry: [key] is not initialised, [key0] is whatever
    the stack holds, and so is the content [values0] of the array. *)
Definition scan_entry (key0 : Z) (values0 : list Z) : scan_locals :=
  {| key := key0; prev_keyp := NULLp; values := values0 |}.

(** What an array of [nr_cpus] slots taken from the stack holds before
    anything is written to it. *)
Definition stack_values (nr_cpus : Z) (k : K) : list Z :=
  map (stack_word env k) (seq 0 (Z.to_nat nr_cpus)).

(** [__u64 values[nr_cpus]]: the array is taken from the stack when the
    function is entered and is not initialised.  When the stack cannot
    grow by its [8 * nr_cpus] bytes (a CPU count that is an error code is
    some four thousand millions as an [unsigned int]) the process is
    killed by SIGSEGV before it makes another call. *)
Definition alloca_values (nr_cpus : Z) : M K (list Z) :=
  fun k =>
    if 8 * nr_cpus <=? stack_room env k
    then ret (stack_values nr_cpus k) k
    else killed k.

Definition stats_print (fuel : nat) (map_fd : Z) : M K unit :=
  n <- call (libbpf_num_possible_cpus env) EvNumPossibleCpus ;;
  let nr_cpus := to_u32 n in
  values0 <- alloca_values nr_cpus ;;
  while_true fuel (scan_body map_fd nr_cpus) (scan_entry 0 values0) ;;;
  fprintf stdout nl [].

(** *** stats_poll *)

Definition poll_body (scan_fuel : nat) (map_fd interval : Z) (_ : unit)
  : M K (ctl * unit) :=
  stats_print scan_fuel map_fd ;;;
  call_ (sleep env interval) (EvSleep interval) ;;;
  ret (Continue, tt).

(** [cycles] bounds the iterations of [while (1)], [scan_fuel] those of
    each scan. *)
Definition stats_poll (cycles scan_fuel : nat) (map_fd map_type interval : Z)
  : M K unit :=
  call_ (setlocale env "LC_NUMERIC" "en_US") (EvSetlocale "LC_NUMERIC" "en_US") ;;;
  while_true cycles (poll_body scan_fuel map_fd interval) tt.

(** *** __check_map_fd_info *)

Definition __func__check : string := "__check_map_fd_info".

(** Returns the exit status and [*info]. *)
Definition __check_map_fd_info (map_fd : Z) (info exp : bpf_map_info)
  : M K (Z * bpf_map_info) :=
  if map_fd <? 0 then ret (EXIT_FAIL codes, info)
  else
    r <- call (bpf_obj_get_info_by_fd env map_fd) (EvGetInfoByFd map_fd) ;;
    match r with
    | inr errno =>
        fprintf stderr (ln "ERR: %s() can't get info - %s")
          [ArgStr (Some __func__check); ArgStr (Some (strerror env errno))] ;;;
        ret (EXIT_FAIL_BPF codes, info)
    | inl info =>
        if negb (key_size exp =? 0) && negb (key_size exp =? key_size info)
        then
          fprintf stderr
            (ln "ERR: %s() Map key size(%d) mismatch expected size(%d)")
            [ArgStr (Some __func__check); ArgInt (key_size info);
             ArgInt (key_size exp)] ;;;
          ret (EXIT_FAIL codes, info)
        else if negb (value_size exp =? 0)
                && negb (value_size exp =? value_size info)
        then
          fprintf stderr
            (ln "ERR: %s() Map value size(%d) mismatch expected size(%d)")
            [ArgStr (Some __func__check); ArgInt (value_size info);
             ArgInt (value_size exp)] ;;;
          ret (EXIT_FAIL codes, info)
        else if negb (max_entries exp =? 0)
                && negb (max_entries exp =? max_entries info)
        then
          fprintf stderr
            (ln "ERR: %s() Map max_entries(%d) mismatch expected size(%d)")
            [ArgStr (Some __func__check); ArgInt (max_entries info);
             ArgInt (max_entries exp)] ;;;
          ret (EXIT_FAIL codes, info)
        else if negb (type exp =? 0) && negb (type exp =? type info)
        then
          fprintf stderr
            (ln "ERR: %s() Map type(%d) mismatch expected type(%d)")
            [ArgStr (Some __func__check); ArgInt (type info);
             ArgInt (type exp)] ;;;
          ret (EXIT_FAIL codes, info)
        else ret (0, info)
    end.

(** *** load_bpf_and_trace_attach *)

(** The label [err:]. *)
Definition err_exit (obj : Z) : M K (option Z) :=
  call_ (bpf_object__close env obj) (EvClose obj) ;;;
  ret None.

(** Returns the object, or [None] for NULL. *)
Definition load_bpf_and_trace_attach (cfg : config) : M K (option Z) :=
  o <- call (bpf_object__open_file env (filename cfg))
            (EvOpenFile (filename cfg)) ;;
  match o with
  | ErrPtr _ => ret None
  | ValidPtr obj =>
      e <- call (bpf_object__load env obj) (EvLoad obj) ;;
      if negb (e =? 0) then
        fprintf stderr (ln "ERR: loading BPF-OBJ file(%s) (%d): %s")
          [ArgStr (Some (filename cfg)); ArgInt e;
           ArgStr (Some (strerror env (- e)))] ;;;
        err_exit obj
      else
        p <- call (bpf_object__next_program env obj) (EvNextProgram obj) ;;
        match p with
        | None =>
            fprintf stderr
              (ln "ERR: Failed to retrieve program from BPF-OBJ file(%s) (%d): %s")
              [ArgStr (Some (filename cfg)); ArgInt e;
               ArgStr (Some (strerror env (- e)))] ;;;
            err_exit obj
        | Some prog =>
            lk <- call (bpf_program__attach_tracepoint env prog
                          "xdp" "xdp_exception")
                       (EvAttachTracepoint prog "xdp" "xdp_exception") ;;
            match lk with
            | ErrPtr _ =>
                fprintf stdout (ln "bpf_program__attach_tracepoint failed") [] ;;;
                err_exit obj
            | ValidPtr _ => ret (Some obj)
            end
        end
  end.

(** *** main

    [cfg] and [verbose] are what [parse_cmdline_args] leaves. *)
Definition main (cycles scan_fuel : nat) (cfg : config) (verbose : bool)
  : M K Z :=
  let interval := 2 in
  bpf_obj <- load_bpf_and_trace_attach cfg ;;
  match bpf_obj with
  | None => ret (EXIT_FAIL_BPF codes)
  | Some bpf_obj =>
      (if verbose
       then fprintf stdout (ln "Success: Loaded BPF-object(%s)")
              [ArgStr (Some (filename cfg))]
       else ret tt) ;;;
      stats_map_fd <- find_map_fd bpf_obj "xdp_stats_map" ;;
      if stats_map_fd <? 0 then ret (EXIT_FAIL_BPF codes)
      else
        ei <- __check_map_fd_info stats_map_fd bpf_map_info_zero map_expect ;;
        let info := snd ei in
        if negb (fst ei =? 0) then
          fprintf stderr (ln "ERR: map via FD not compatible") [] ;;;
          ret (fst ei)
        else
          (if verbose
           then
             fprintf stdout (String.append nl (ln "Collecting stats from BPF map")) [] ;;;
             fprintf stdout
               (ln " - BPF map (bpf_map_type:%d) id:%d name:%s key_size:%d value_size:%d max_entries:%d")
               [ArgInt (type info); ArgInt (id info);
                ArgStr (Some (name info)); ArgInt (key_size info);
                ArgInt (value_size info); ArgInt (max_entries info)]
           else ret tt) ;;;
          stats_poll cycles scan_fuel stats_map_fd (type info) interval ;;;
          ret (EXIT_OK codes)
  end.

End Program.

(** ** Vocabulary of the statements

    What follows is not code of the program: the words the properties below
    are stated with. *)

(** The arithmetic sum of the slots. *)
Definition slot_sum (values : list Z) : Z := fold_right Z.add 0 values.

(** The four checked fields. *)
Inductive field : Type := KeySize | ValueSize | MaxEntries | MapType.

Definition field_of (f : field) (i : bpf_map_info) : Z :=
  match f with
  | KeySize => key_size i
  | ValueSize => value_size i
  | MaxEntries => max_entries i
  | MapType => type i
  end.

(** The specification's policy, in its words: the fields in the fixed order
    key size, value size, max entries, type; a field mismatches when its
    expectation is non-zero and differs from the live value; the first
    such field is the one reported. *)
Definition check_order : list field := [KeySize; ValueSize; MaxEntries; MapType].

Definition mismatches (live exp : bpf_map_info) (f : field) : bool :=
  negb (field_of f exp =? 0) && negb (field_of f exp =? field_of f live).

Definition spec_first_mismatch (live exp : bpf_map_info) : option field :=
  find (mismatches live exp) check_order.

(** The diagnostic of a field: the format names the field, the arguments
    are the observed and the expected value. *)
Definition mismatch_fmt (f : field) : string :=
  match f with
  | KeySize => ln "ERR: %s() Map key size(%d) mismatch expected size(%d)"
  | ValueSize => ln "ERR: %s() Map value size(%d) mismatch expected size(%d)"
  | MaxEntries => ln "ERR: %s() Map max_entries(%d) mismatch expected size(%d)"
  | MapType => ln "ERR: %s() Map type(%d) mismatch expected type(%d)"
  end.

Definition mismatch_report (f : field) (observed expected : Z) : event :=
  EvPrintf stderr (mismatch_fmt f)
    [ArgStr (Some __func__check); ArgInt observed; ArgInt expected].

(** The objects a trace releases, in order. *)
Fixpoint closed_objects (t : trace) : list Z :=
  match t with
  | [] => []
  | EvClose obj :: t' => obj :: closed_objects t'
  | _ :: t' => closed_objects t'
  end.

(** The three ways the pipeline fails once [obj] is open: the calls made
    after the open and before the release, the last one being the
    diagnostic. *)
Definition failed_after_open (obj : Z) (t : trace) : Prop :=
  (exists e out fmt args,
      e <> 0 /\ t = [EvLoad obj e; EvPrintf out fmt args])
  \/ (exists out fmt args,
         t = [EvLoad obj 0; EvNextProgram obj None; EvPrintf out fmt args])
  \/ (exists prog e out fmt args,
         t = [EvLoad obj 0; EvNextProgram obj (Some prog);
              EvAttachTracepoint prog "xdp" "xdp_exception" (ErrPtr e);
              EvPrintf out fmt args]).

(** The events of the enumeration loop of a scan whose value buffer has
    [nr_cpus] slots. *)
Definition scan_event (nr_cpus : Z) (e : event) : Prop :=
  match e with
  | EvGetNextKey _ _ _ | EvIfIndexToName _ _ | EvPrintf _ _ _ => True
  | EvLookupElem _ _ buflen _ => buflen = nr_cpus
  | _ => False
  end.


(** A read that succeeded. *)
Definition read_ok (e : event) : bool :=
  match e with
  | EvLookupElem _ _ _ (Some _) => true
  | _ => false
  end.

(** The diagnostic of a read that failed. *)
Definition lookup_failed_fmt : string :=
  ln "ERR: bpf_map_lookup_elem failed key:0x%X".

(** What one iteration does while every read of key 1 fails. *)
Definition retry_of_key_1 : trace :=
  [EvGetNextKey 5 None (inl 1); EvLookupElem 5 1 2 None;
   EvPrintf stderr lookup_failed_fmt [ArgInt 1]].

(** The reads of a trace that succeeded, each with the name the interface
    index resolved to and the total of its slots. *)
Fixpoint reads (t : trace) : list (option string * Z) :=
  match t with
  | [] => []
  | EvLookupElem _ _ nr_cpus (Some values) :: t' =>
      match t' with
      | EvIfIndexToName _ dev :: _ => (dev, sum_values nr_cpus values) :: reads t'
      | _ => reads t'
      end
  | _ :: t' => reads t'
  end.

(** A pair as the scan prints it: the name, or what glibc prints for NULL,
    the total in plain decimal digits between parentheses, and a space. *)
Definition render_pair (p : option string * Z) : string :=
  String.append (match fst p with Some s => s | None => "(null)" end)
    (String.append " (" (String.append (Fmt.dec (to_u64 (snd p))) ") ")).

(** A step of the pipeline before polling that failed: open, load,
    program selection, attach, table resolution (by name, then its
    descriptor), the query of the table metadata, the schema check. *)
Definition step_failed (e : event) : Prop :=
  match e with
  | EvOpenFile _ (ErrPtr _) => True
  | EvLoad _ e => e <> 0
  | EvNextProgram _ None => True
  | EvAttachTracepoint _ _ _ (ErrPtr _) => True
  | EvFindMapByName _ _ None => True
  | EvMapFd _ fd => fd < 0
  | EvGetInfoByFd _ (inr _) => True
  | EvGetInfoByFd _ (inl live) => spec_first_mismatch live map_expect <> None
  | _ => False
  end.

(** The exit status of each failure: the generic failure for a schema
    mismatch, the kernel/table failure for everything else. *)
Definition failure_code (codes : exit_codes) (e : event) : Z :=
  match e with
  | EvGetInfoByFd _ (inl _) => EXIT_FAIL codes
  | _ => EXIT_FAIL_BPF codes
  end.

(** What the poller calls. *)
Definition polling_event (e : event) : Prop :=
  match e with
  | EvSetlocale _ _ | EvNumPossibleCpus _ | EvGetNextKey _ _ _
  | EvLookupElem _ _ _ _ | EvIfIndexToName _ _ | EvSleep _ => True
  | _ => False
  end.

(** What may follow a failed step: diagnostics and the release of the
    object. *)
Definition aftermath_event (e : event) : Prop :=
  match e with
  | EvPrintf _ _ _ | EvClose _ => True
  | _ => False
  end.

(** What a trace of the poller is made of. *)
Definition poll_trace_event (e : event) : Prop :=
  polling_event e \/ exists out fmt args, e = EvPrintf out fmt args.

Section Cycles.

Context {K : Type}.
Variable env : libbpf K.

(** One cycle of the polling loop: a scan, then the sleep. *)
Definition cycle (scan_fuel : nat) (map_fd interval : Z) : M K unit :=
  stats_print env scan_fuel map_fd ;;;
  call_ (sleep env interval) (EvSleep interval).

(** [n] cycles in a row, each one run to its end. *)
Fixpoint cycles (n scan_fuel : nat) (map_fd interval : Z) : M K unit :=
  match n with
  | O => ret tt
  | S n' =>
      cycle scan_fuel map_fd interval ;;; cycles n' scan_fuel map_fd interval
  end.

End Cycles.

(** ** A simulated environment

    A small world to run the program in: the outcomes of the load steps,
    the answers to successive queries of the CPU count, a table whose
    entries are enumerated in list order (as a hash table does, an unknown
    previous key restarts the enumeration), and reads that fail.  The
    stack has the 8 MiB that Linux gives by default, and its [i]-th word
    holds [7000 + i]. *)

Module Sim.

Record world : Type := {
  w_open : libbpf_ptr;
  w_load : Z;
  w_prog : option Z;
  w_attach : libbpf_ptr;
  w_map : option Z;
  w_fd : Z;
  w_info : bpf_map_info + Z;
  w_cpus : list Z;              (* the last answer repeats *)
  w_table : list (Z * list Z);
  w_failing : list (Z * nat);   (* how many of a key's next reads fail *)
  w_broken : list Z;            (* keys whose reads always fail *)
  w_ifnames : list (Z * string)
}.

Fixpoint after (k : Z) (t : list (Z * list Z)) : option (list (Z * list Z)) :=
  match t with
  | [] => None
  | (k', _) :: r => if k =? k' then Some r else after k r
  end.

Definition next_key (prev : option Z) (w : world) : Z + Z :=
  let rest :=
    match prev with
    | None => w_table w
    | Some k => match after k (w_table w) with
                | Some r => r
                | None => w_table w
                end
    end in
  match rest with
  | [] => inr ENOENT
  | (k, _) :: _ => inl k
  end.

Fixpoint assoc {A} (k : Z) (l : list (Z * A)) : option A :=
  match l with
  | [] => None
  | (k', a) :: r => if k =? k' then Some a else assoc k r
  end.

Fixpoint tick (k : Z) (l : list (Z * nat)) : list (Z * nat) :=
  match l with
  | [] => []
  | (k', n) :: r => if k =? k' then (k', Nat.pred n) :: r else (k', n) :: tick k r
  end.

Definition with_failing (w : world) (f : list (Z * nat)) : world :=
  {| w_open := w_open w; w_load := w_load w; w_prog := w_prog w;
     w_attach := w_attach w; w_map := w_map w; w_fd := w_fd w;
     w_info := w_info w; w_cpus := w_cpus w; w_table := w_table w;
     w_failing := f; w_broken := w_broken w; w_ifnames := w_ifnames w |}.

Definition with_cpus (w : world) (c : list Z) : world :=
  {| w_open := w_open w; w_load := w_load w; w_prog := w_prog w;
     w_attach := w_attach w; w_map := w_map w; w_fd := w_fd w;
     w_info := w_info w; w_cpus := c; w_table := w_table w;
     w_failing := w_failing w; w_broken := w_broken w;
     w_ifnames := w_ifnames w |}.

Definition lookup (k : Z) (w : world) : option (list Z) * world :=
  if existsb (Z.eqb k) (w_broken w) then (None, w)
  else
    match assoc k (w_failing w) with
    | Some (S _) => (None, with_failing w (tick k (w_failing w)))
    | _ => (assoc k (w_table w), w)
    end.

Definition num_cpus (w : world) : Z * world :=
  match w_cpus w with
  | [] => (-1, w)
  | [n] => (n, w)
  | n :: r => (n, with_cpus w r)
  end.

Definition env : libbpf world := {|
  bpf_object__open_file := fun _ w => (w_open w, w);
  bpf_object__load := fun _ w => (w_load w, w);
  bpf_object__next_program := fun _ w => (w_prog w, w);
  bpf_program__attach_tracepoint := fun _ _ _ w => (w_attach w, w);
  bpf_object__close := fun _ w => w;
  bpf_object__find_map_by_name := fun _ _ w => (w_map w, w);
  bpf_map__fd := fun _ w => (w_fd w, w);
  bpf_obj_get_info_by_fd := fun _ w => (w_info w, w);
  libbpf_num_possible_cpus := num_cpus;
  bpf_map_get_next_key := fun _ prev w => (next_key prev w, w);
  bpf_map_lookup_elem := fun _ k w => lookup k w;
  if_indextoname := fun i w => (assoc i (w_ifnames w), w);
  setlocale := fun _ _ w => w;
  sleep := fun _ w => w;
  strerror := fun e => String.append "errno " (Fmt.dec e);
  stack_room := fun _ => 8388608;
  stack_word := fun _ i => 7000 + Z.of_nat i
|}.

(** The exit codes as common_defines.h of the tutorial has them. *)
Definition codes : exit_codes :=
  {| EXIT_OK := 0; EXIT_FAIL := 1; EXIT_FAIL_BPF := 40 |}.

(** The table of the xdp_stats_map example: per-CPU hash, [__s32] keys,
    [__u64] slots. *)
Definition stats_info : bpf_map_info :=
  {| type := 5; id := 7; key_size := 4; value_size := 8; max_entries := 10;
     name := "xdp_stats_map" |}.

(** Everything loads; keys 1 and 2 on two CPUs. *)
Definition good : world := {|
  w_open := ValidPtr 100; w_load := 0; w_prog := Some 200;
  w_attach := ValidPtr 300; w_map := Some 400; w_fd := 5;
  w_info := inl stats_info;
  w_cpus := [2];
  w_table := [(1, [10; 20]); (2, [5; 5])];
  w_failing := []; w_broken := [];
  w_ifnames := [(1, "lo"); (2, "eth0")]
|}.

Definition with_broken (w : world) (b : list Z) : world :=
  {| w_open := w_open w; w_load := w_load w; w_prog := w_prog w;
     w_attach := w_attach w; w_map := w_map w; w_fd := w_fd w;
     w_info := w_info w; w_cpus := w_cpus w; w_table := w_table w;
     w_failing := w_failing w; w_broken := b; w_ifnames := w_ifnames w |}.

Definition with_table (w : world) (t : list (Z * list Z)) : world :=
  {| w_open := w_open w; w_load := w_load w; w_prog := w_prog w;
     w_attach := w_attach w; w_map := w_map w; w_fd := w_fd w;
     w_info := w_info w; w_cpus := w_cpus w; w_table := t;
     w_failing := w_failing w; w_broken := w_broken w;
     w_ifnames := w_ifnames w |}.

(** One key, whose slots add up to 1000. *)
Definition thousand : world := with_table good [(2, [400; 600])].

Definition with_open (w : world) (o : libbpf_ptr) : world :=
  {| w_open := o; w_load := w_load w; w_prog := w_prog w;
     w_attach := w_attach w; w_map := w_map w; w_fd := w_fd w;
     w_info := w_info w; w_cpus := w_cpus w; w_table := w_table w;
     w_failing := w_failing w; w_broken := w_broken w;
     w_ifnames := w_ifnames w |}.

Definition with_info (w : world) (i : bpf_map_info + Z) : world :=
  {| w_open := w_open w; w_load := w_load w; w_prog := w_prog w;
     w_attach := w_attach w; w_map := w_map w; w_fd := w_fd w;
     w_info := i; w_cpus := w_cpus w; w_table := w_table w;
     w_failing := w_failing w; w_broken := w_broken w;
     w_ifnames := w_ifnames w |}.

(** The artifact cannot be opened (ENOENT). *)
Definition corrupt : world := with_open good (ErrPtr (-2)).

(** A table with 8-byte keys. *)
Definition wide_info : bpf_map_info :=
  {| type := 5; id := 7; key_size := 8; value_size := 8; max_entries := 10;
     name := "xdp_stats_map" |}.

Definition wide_keys : world := with_info good (inl wide_info).


(** The first read of key 1 fails, the next ones succeed. *)
Definition fails_once : world := with_failing good [(1, 1%nat)].

(** The first read of key 2 fails. *)
Definition second_fails_once : world := with_failing good [(2, 1%nat)].

(** Every read of key 1 fails. *)
Definition first_broken : world := with_broken good [1].

End Sim.

(** ** filename__read_int

    The function reads a file through [open], [read] and [close] and
    parses what it read with [atoi].  It has its own, small interface to
    the environment and its own events. *)

(** [atoi] as glibc has it, [(int) strtol (s, NULL, 10)]: white space is
    skipped, a sign is taken, the digits are read up to the first
    character that is not one; the value saturates at the bounds of [long]
    and is truncated to [int]. *)
Module Atoi.

Definition is_space (c : ascii) : bool :=
  let n := nat_of_ascii c in
  ((n =? 32) || ((9 <=? n) && (n <=? 13)))%nat.

Definition digit_of (c : ascii) : option Z :=
  let n := nat_of_ascii c in
  if ((48 <=? n) && (n <=? 57))%nat then Some (Z.of_nat (n - 48)) else None.

Fixpoint digits (acc : Z) (s : string) : Z :=
  match s with
  | EmptyString => acc
  | String c r =>
      match digit_of c with
      | Some d => digits (10 * acc + d) r
      | None => acc
      end
  end.

Fixpoint skip_spaces (s : string) : string :=
  match s with
  | EmptyString => s
  | String c r => if is_space c then skip_spaces r else s
  end.

Definition strtol (s : string) : Z :=
  let v :=
    match skip_spaces s with
    | String c r =>
        if Ascii.eqb c "-" then - digits 0 r
        else if Ascii.eqb c "+" then digits 0 r
        else digits 0 (String c r)
    | EmptyString => 0
    end in
  Z.max (- 2 ^ 63) (Z.min (2 ^ 63 - 1) v).

Definition atoi (s : string) : Z := to_s32 (strtol s).

End Atoi.

(** [open] returns a descriptor or -1; [read] returns its result and the
    bytes it wrote to the buffer; the result of [close] is not used. *)
Record libc_io (K : Type) : Type := {
  sys_open : string -> Z -> K -> Z * K;
  sys_read : Z -> Z -> K -> (Z * string) * K;
  sys_close : Z -> K -> K
}.

Arguments sys_open {K}.
Arguments sys_read {K}.
Arguments sys_close {K}.

Definition O_RDONLY : Z := 0.

Inductive io_event : Type :=
| IoOpen (path : string) (flags : Z) (fd : Z)
| IoRead (fd : Z) (count : Z) (n : Z) (data : string)
| IoClose (fd : Z).

Section ReadInt.

Context {K : Type}.
Variable io : libc_io K.

(** Returns the status and [*value].  [value] is [*value] on entry; [line]
    is not initialised and not terminated by the function: [stack] is what
    memory holds after the bytes that [read] wrote, the rest of [line] and
    what follows it. *)
Definition filename__read_int (filename : string) (value : Z) (stack : string)
    (k : K) : list io_event * K * (Z * Z) :=
  match sys_open io filename O_RDONLY k with
  | (fd, k1) =>
      if fd <? 0 then ([IoOpen filename O_RDONLY fd], k1, (-1, value))
      else
        match sys_read io fd 64 k1 with
        | (n, data, k2) =>
            ([IoOpen filename O_RDONLY fd; IoRead fd 64 n data; IoClose fd],
             sys_close io fd k2,
             if 0 <? n then (0, Atoi.atoi (String.append data stack))
             else (-1, value))
        end
  end.

End ReadInt.

(** The descriptors a trace opens and the ones it closes. *)
Fixpoint opened_fds (t : list io_event) : list Z :=
  match t with
  | [] => []
  | IoOpen _ _ fd :: t' => if fd <? 0 then opened_fds t' else fd :: opened_fds t'
  | _ :: t' => opened_fds t'
  end.

Fixpoint closed_fds (t : list io_event) : list Z :=
  match t with
  | [] => []
  | IoClose fd :: t' => fd :: closed_fds t'
  | _ :: t' => closed_fds t'
  end.

(** A file for the examples: its text, or nothing when it cannot be
    opened. *)
Module SimIO.

Definition env : libc_io (option string) := {|
  sys_open := fun _ _ w => (match w with Some _ => 3 | None => -1 end, w);
  sys_read := fun _ count w =>
    match w with
    | Some text =>
        let data := substring 0 (Z.to_nat count) text in
        (Z.of_nat (String.length data), data, w)
    | None => (-1, EmptyString, w)
    end;
  sys_close := fun _ w => w
|}.

End SimIO.

(** Equality of the checked fields is decidable. *)
Definition field_eq_dec (f g : field) : {f = g} + {f <> g}.
Proof. decide equality. Defined.

(** More worlds for the examples. *)
Module Sim2.

(** The object has no map of the name asked for. *)
Definition no_map : Sim.world := {|
  Sim.w_open := ValidPtr 100; Sim.w_load := 0; Sim.w_prog := Some 200;
  Sim.w_attach := ValidPtr 300; Sim.w_map := None; Sim.w_fd := 5;
  Sim.w_info := inl Sim.stats_info; Sim.w_cpus := [2];
  Sim.w_table := [(1, [10; 20]); (2, [5; 5])];
  Sim.w_failing := []; Sim.w_broken := [];
  Sim.w_ifnames := [(1, "lo"); (2, "eth0")]
|}.

(** The kernel refuses to describe the table (EBADF). *)
Definition no_info : Sim.world := Sim.with_info Sim.good (inr 9).

(** An empty table. *)
Definition empty : Sim.world := Sim.with_table Sim.good [].

(** Only the key size is expected, and it is 8. *)
Definition expect_key_8 : bpf_map_info :=
  {| type := 0; id := 0; key_size := 8; value_size := 0; max_entries := 0;
     name := "" |}.

(** The kernel rejects the program (EINVAL). *)
Definition load_fails : Sim.world := {|
  Sim.w_open := ValidPtr 100; Sim.w_load := -22; Sim.w_prog := Some 200;
  Sim.w_attach := ValidPtr 300; Sim.w_map := Some 400; Sim.w_fd := 5;
  Sim.w_info := inl Sim.stats_info; Sim.w_cpus := [2];
  Sim.w_table := [(1, [10; 20]); (2, [5; 5])];
  Sim.w_failing := []; Sim.w_broken := [];
  Sim.w_ifnames := [(1, "lo"); (2, "eth0")]
|}.

(** The object holds no program. *)
Definition no_prog : Sim.world := {|
  Sim.w_open := ValidPtr 100; Sim.w_load := 0; Sim.w_prog := None;
  Sim.w_attach := ValidPtr 300; Sim.w_map := Some 400; Sim.w_fd := 5;
  Sim.w_info := inl Sim.stats_info; Sim.w_cpus := [2];
  Sim.w_table := [(1, [10; 20]); (2, [5; 5])];
  Sim.w_failing := []; Sim.w_broken := [];
  Sim.w_ifnames := [(1, "lo"); (2, "eth0")]
|}.

(** The tracepoint cannot be attached to (ENOENT). *)
Definition attach_fails : Sim.world := {|
  Sim.w_open := ValidPtr 100; Sim.w_load := 0; Sim.w_prog := Some 200;
  Sim.w_attach := ErrPtr (-2); Sim.w_map := Some 400; Sim.w_fd := 5;
  Sim.w_info := inl Sim.stats_info; Sim.w_cpus := [2];
  Sim.w_table := [(1, [10; 20]); (2, [5; 5])];
  Sim.w_failing := []; Sim.w_broken := [];
  Sim.w_ifnames := [(1, "lo"); (2, "eth0")]
|}.

(** The CPU count cannot be read: every query returns the error -1. *)
Definition no_cpus : Sim.world := Sim.with_cpus Sim.good [].

(** A table that is not a per-CPU one (a plain hash table, type 1) with
    the key and value sizes [main] expects: a read writes one slot. *)
Definition hash_info : bpf_map_info :=
  {| type := 1; id := 8; key_size := 4; value_size := 8; max_entries := 10;
     name := "xdp_stats_map" |}.

Definition plain_hash : Sim.world :=
  Sim.with_info (Sim.with_table Sim.good [(1, [10]); (2, [5])])
    (inl hash_info).

(** The read of key 2 writes only the first slot. *)
Definition short_second : Sim.world :=
  Sim.with_table Sim.good [(1, [10; 20]); (2, [5])].

End Sim2.

(** ** More vocabulary *)

(** What "next key after [prev]" answers on a table at rest whose entries
    are enumerated in list order: the first key from NULL or from a key the
    table does not hold, ENOENT after the last one. *)
Definition table_next (t : list (Z * list Z)) (prev : option Z) : Z + Z :=
  let rest :=
    match prev with
    | None => t
    | Some k => match Sim.after k t with
                | Some r => r
                | None => t
                end
    end in
  match rest with
  | [] => inr ENOENT
  | (k, _) :: _ => inl k
  end.

(** What a scan does on the entries [t] still to come, the last key handed
    out being [prev]: for each entry the call for its key, its read, the
    resolution of its name and its pair; at the end the call that reports
    exhaustion. *)
Fixpoint scan_trace (map_fd nr_cpus : Z) (names : Z -> option string)
    (prev : option Z) (t : list (Z * list Z)) : trace :=
  match t with
  | [] => [EvGetNextKey map_fd prev (inr ENOENT)]
  | (k, values) :: t' =>
      [EvGetNextKey map_fd prev (inl k);
       EvLookupElem map_fd k nr_cpus (Some values);
       EvIfIndexToName (to_u32 k) (names (to_u32 k));
       EvPrintf stdout "%s (%llu) "
         [ArgStr (names (to_u32 k)); ArgInt (sum_values nr_cpus values)]]
      ++ scan_trace map_fd nr_cpus names (Some k) t'
  end.

(** The keys whose read failed, in order. *)
Definition failed_reads (t : trace) : list Z :=
  flat_map (fun e => match e with
                     | EvLookupElem _ k _ None => [k]
                     | _ => []
                     end) t.

Definition on_stderr (e : event) : bool :=
  match e with
  | EvPrintf stderr _ _ => true
  | _ => false
  end.

(** Everything the poller may do on the table [map_fd] with the interval
    [interval]: its calls and the three things it prints. *)
Definition poller_event (map_fd interval : Z) (e : event) : Prop :=
  match e with
  | EvSetlocale c l => c = "LC_NUMERIC" /\ l = "en_US"
  | EvNumPossibleCpus _ | EvIfIndexToName _ _ => True
  | EvGetNextKey fd _ _ | EvLookupElem fd _ _ _ => fd = map_fd
  | EvSleep s => s = interval
  | EvPrintf stdout fmt _ => fmt = "%s (%llu) " \/ fmt = nl
  | EvPrintf stderr fmt _ => fmt = lookup_failed_fmt
  | _ => False
  end.

(** The lines [main] prints when [verbose] is set. *)
Definition is_banner (e : event) : bool :=
  match e with
  | EvPrintf stdout fmt _ =>
      String.eqb fmt (ln "Success: Loaded BPF-object(%s)")
      || String.eqb fmt (String.append nl (ln "Collecting stats from BPF map"))
      || String.eqb fmt
           (ln " - BPF map (bpf_map_type:%d) id:%d name:%s key_size:%d value_size:%d max_entries:%d")
  | _ => false
  end.

(** Where the digits of a number end. *)
Definition stops (s : string) : Prop :=
  match s with
  | EmptyString => True
  | String c _ => Atoi.digit_of c = None
  end.

(** The number the digits [d] spell after the digits of [acc]. *)
Fixpoint uint_val (d : Decimal.uint) (acc : Z) : Z :=
  match d with
  | Decimal.Nil => acc
  | Decimal.D0 l => uint_val l (10 * acc)
  | Decimal.D1 l => uint_val l (10 * acc + 1)
  | Decimal.D2 l => uint_val l (10 * acc + 2)
  | Decimal.D3 l => uint_val l (10 * acc + 3)
  | Decimal.D4 l => uint_val l (10 * acc + 4)
  | Decimal.D5 l => uint_val l (10 * acc + 5)
  | Decimal.D6 l => uint_val l (10 * acc + 6)
  | Decimal.D7 l => uint_val l (10 * acc + 7)
  | Decimal.D8 l => uint_val l (10 * acc + 8)
  | Decimal.D9 l => uint_val l (10 * acc + 9)
  end.

(** *** The pipeline before polling

    How far the environment lets the pipeline get from the world [k], each
    step with the world it leaves: the object opened, loaded, its program
    selected, the program attached to the tracepoint, the table resolved
    to a descriptor that is not negative. *)
Section Pipeline.

Context {K : Type}.
Variable env : libbpf K.
Variable cfg : config.
Variable k : K.

Definition opened (obj : Z) (k1 : K) : Prop :=
  bpf_object__open_file env (filename cfg) k = (ValidPtr obj, k1).

Definition loaded (obj : Z) (k2 : K) : Prop :=
  exists k1, opened obj k1 /\ bpf_object__load env obj k1 = (0, k2).

Definition selected (obj prog : Z) (k3 : K) : Prop :=
  exists k2,
    loaded obj k2
    /\ bpf_object__next_program env obj k2 = (Some prog, k3).

Definition attached (obj prog link : Z) (k4 : K) : Prop :=
  exists k3,
    selected obj prog k3
    /\ bpf_program__attach_tracepoint env prog "xdp" "xdp_exception" k3
       = (ValidPtr link, k4).

Definition resolved (obj prog link map fd : Z) (k6 : K) : Prop :=
  exists k4 k5,
    attached obj prog link k4
    /\ bpf_object__find_map_by_name env obj "xdp_stats_map" k4 = (Some map, k5)
    /\ bpf_map__fd env map k5 = (fd, k6)
    /\ 0 <= fd.

End Pipeline.

(** The calls of a pipeline that got as far as the attachment, and as far
    as the descriptor of the table. *)
Definition attach_trace (cfg : config) (obj prog link : Z) : trace :=
  [EvOpenFile (filename cfg) (ValidPtr obj); EvLoad obj 0;
   EvNextProgram obj (Some prog);
   EvAttachTracepoint prog "xdp" "xdp_exception" (ValidPtr link)].

Definition resolve_trace (obj map fd : Z) : trace :=
  [EvFindMapByName obj "xdp_stats_map" (Some map); EvMapFd map fd].

(** What [main] prints between its steps when [verbose] is set. *)
Definition loaded_banner (verbose : bool) (cfg : config) : trace :=
  if verbose
  then [EvPrintf stdout (ln "Success: Loaded BPF-object(%s)")
          [ArgStr (Some (filename cfg))]]
  else [].

Definition polling_banner (verbose : bool) (info : bpf_map_info) : trace :=
  if verbose
  then [EvPrintf stdout (String.append nl (ln "Collecting stats from BPF map"))
          [];
        EvPrintf stdout
          (ln " - BPF map (bpf_map_type:%d) id:%d name:%s key_size:%d value_size:%d max_entries:%d")
          [ArgInt (type info); ArgInt (id info); ArgStr (Some (name info));
           ArgInt (key_size info); ArgInt (value_size info);
           ArgInt (max_entries info)]]
  else [].

(** The diagnostics of the steps that fail. *)
Definition load_failed_report (env_strerror : Z -> string) (cfg : config)
    (e : Z) : event :=
  EvPrintf stderr (ln "ERR: loading BPF-OBJ file(%s) (%d): %s")
    [ArgStr (Some (filename cfg)); ArgInt e;
     ArgStr (Some (env_strerror (- e)))].

Definition no_program_report (env_strerror : Z -> string) (cfg : config)
  : event :=
  EvPrintf stderr
    (ln "ERR: Failed to retrieve program from BPF-OBJ file(%s) (%d): %s")
    [ArgStr (Some (filename cfg)); ArgInt 0;
     ArgStr (Some (env_strerror (- 0)))].

Definition attach_failed_report : event :=
  EvPrintf stdout (ln "bpf_program__attach_tracepoint failed") [].

Definition no_map_report : event :=
  EvPrintf stderr (ln "ERR: cannot find map by name: %s")
    [ArgStr (Some "xdp_stats_map")].

Definition no_info_report (env_strerror : Z -> string) (errno : Z) : event :=
  EvPrintf stderr (ln "ERR: %s() can't get info - %s")
    [ArgStr (Some __func__check); ArgStr (Some (env_strerror errno))].

Definition not_compatible_report : event :=
  EvPrintf stderr (ln "ERR: map via FD not compatible") [].

(** A read wrote as many slots as the array it was given has. *)
Definition fills_buffer (e : event) : Prop :=
  match e with
  | EvLookupElem _ _ buflen (Some written) =>
      Z.of_nat (List.length written) = buflen
  | _ => True
  end.

(** Every entry of a table has [n] slots. *)
Definition slots_per_entry (n : Z) (t : list (Z * list Z)) : Prop :=
  Forall (fun entry => Z.of_nat (List.length (snd entry)) = n) t.

(** The entries already enumerated and the last key handed out. *)
Definition cursor_at (pre : list (Z * list Z)) (prev : option Z) : Prop :=
  match prev with
  | None => pre = []
  | Some pk => exists pre' values, pre = pre' ++ [(pk, values)]
  end.

(** What [main] may do on a table descriptor, and how long it sleeps. *)
Definition on_resolved_table (fd : Z) (e : event) : Prop :=
  match e with
  | EvGetInfoByFd fd' _ | EvGetNextKey fd' _ _ | EvLookupElem fd' _ _ _ =>
      fd' = fd
  | EvSleep s => s = 2
  | _ => True
  end.

(** ** Running computations *)

Section RunFacts.

Context {K : Type}.

Lemma events_bind {A B} (m : M K A) (f : A -> M K B) (k : K) :
  events (bind m f k) =
  events (m k) ++ match value (m k) with
                  | Some a => events (f a (world (m k)))
                  | None => []
                  end.
Proof.
  unfold bind, events, value, world.
  destruct (m k) as [[t1 k1] [a|]]; simpl.
  - destruct (f a k1) as [[t2 k2] r]; reflexivity.
  - now rewrite app_nil_r.
Qed.

Lemma value_bind {A B} (m : M K A) (f : A -> M K B) (k : K) :
  value (bind m f k) =
  match value (m k) with
  | Some a => value (f a (world (m k)))
  | None => None
  end.
Proof.
  unfold bind, value, world.
  destruct (m k) as [[t1 k1] [a|]]; simpl; [|reflexivity].
  destruct (f a k1) as [[t2 k2] r]; reflexivity.
Qed.

Lemma world_bind {A B} (m : M K A) (f : A -> M K B) (k : K) :
  world (bind m f k) =
  match value (m k) with
  | Some a => world (f a (world (m k)))
  | None => world (m k)
  end.
Proof.
  unfold bind, value, world.
  destruct (m k) as [[t1 k1] [a|]]; simpl; [|reflexivity].
  destruct (f a k1) as [[t2 k2] r]; reflexivity.
Qed.

Lemma run_eta {A} (r : trace * K * option A) :
  r = (events r, world r, value r).
Proof. now destruct r as [[t k] v]. Qed.

(** One unrolling of [while (true)]. *)
Lemma while_true_unroll {S} (n : nat) (body : S -> M K (ctl * S)) s k :
  while_true (Datatypes.S n) body s k =
  match body s k with
  | (t1, k1, None) => (t1, k1, None)
  | (t1, k1, Some (Break, s')) => (t1, k1, Some s')
  | (t1, k1, Some (Continue, s')) =>
      match while_true n body s' k1 with
      | (t2, k2, r) => (t1 ++ t2, k2, r)
      end
  end.
Proof.
  simpl. unfold bind.
  destruct (body s k) as [[t1 k1] [[[|] s']|]]; simpl; try reflexivity.
  unfold ret. now rewrite app_nil_r.
Qed.

(** A property of every event of the body holds of every event of the
    loop. *)
Lemma while_true_events {S} (P : event -> Prop)
    (body : S -> M K (ctl * S)) :
  (forall s k, Forall P (events (body s k))) ->
  forall n s k, Forall P (events (while_true n body s k)).
Proof.
  intros Hb n. induction n as [|n IH]; intros s k.
  - constructor.
  - rewrite while_true_unroll.
    specialize (Hb s k).
    destruct (body s k) as [[t1 k1] [[[|] s']|]]; simpl in *; auto.
    specialize (IH s' k1).
    destruct (while_true n body s' k1) as [[t2 k2] r]; simpl in *.
    apply Forall_app; split; assumption.
Qed.

(** A loop whose body never breaks while an invariant holds does not
    return, whatever the fuel. *)
Lemma while_true_diverges {S} (I : S -> K -> Prop)
    (body : S -> M K (ctl * S)) :
  (forall s k, I s k ->
     match value (body s k) with
     | Some (Continue, s') => I s' (world (body s k))
     | Some (Break, _) => False
     | None => True
     end) ->
  forall n s k, I s k -> value (while_true n body s k) = None.
Proof.
  intros Hb n. induction n as [|n IH]; intros s k HI.
  - reflexivity.
  - rewrite while_true_unroll. specialize (Hb s k HI).
    destruct (body s k) as [[t1 k1] [[[|] s']|]]; simpl in *;
      try reflexivity; try contradiction.
    specialize (IH s' k1 Hb).
    destruct (while_true n body s' k1) as [[t2 k2] r]; simpl in *.
    exact IH.
Qed.

End RunFacts.

(** Unfolds the monad down to the calls on the environment. *)
Ltac run_unfold :=
  unfold bind, call, call_, fprintf, ret, out_of_fuel, killed, events, world,
    value in *.

(** ** The aggregator *)

Section Aggregator.

Lemma fold_nth_seq {A} (g : A -> Z -> A) (values : list Z) :
  forall (pre : list Z) (acc : A),
    fold_left (fun t i => g t (nth i (pre ++ values) 0))
              (seq (List.length pre) (List.length values)) acc
    = fold_left g values acc.
Proof.
  induction values as [|v vs IH]; intros pre acc; simpl.
  - reflexivity.
  - rewrite app_nth2 by lia. rewrite Nat.sub_diag. simpl.
    specialize (IH (pre ++ [v]) (g acc v)).
    rewrite length_app in IH. simpl in IH.
    rewrite Nat.add_1_r in IH. rewrite <- app_assoc in IH. exact IH.
Qed.

Lemma fold_wrap_sum (values : list Z) :
  forall acc,
    fold_left (fun t v => to_u64 (t + v)) values (to_u64 acc)
    = to_u64 (acc + slot_sum values).
Proof.
  induction values as [|v vs IH]; intros acc; simpl.
  - now rewrite Z.add_0_r.
  - replace (to_u64 (to_u64 acc + v)) with (to_u64 (acc + v)).
    + rewrite IH. f_equal. lia.
    + unfold to_u64. now rewrite Zplus_mod_idemp_l.
Qed.

(** The array has [nr_cpus] slots. *)
Lemma stack_values_length {K : Type} (env : libbpf K) (nr_cpus : Z) (k : K) :
  List.length (values (scan_entry 0 (stack_values env nr_cpus k)))
  = Z.to_nat nr_cpus.
Proof.
  unfold scan_entry, stack_values. cbn [values].
  now rewrite length_map, length_seq.
Qed.

(** The array keeps its length, and a read that fills it leaves what was
    read. *)
Lemma copy_out_length (written buffer : list Z) :
  List.length (copy_out written buffer) = List.length buffer.
Proof.
  revert written. induction buffer as [|old buffer IH]; intros written.
  - reflexivity.
  - destruct written as [|v written]; [reflexivity|]. simpl. now rewrite IH.
Qed.

Lemma copy_out_full (written buffer : list Z) :
  List.length buffer = List.length written -> copy_out written buffer = written.
Proof.
  revert written. induction buffer as [|old buffer IH]; intros written H.
  - destruct written; [reflexivity|discriminate H].
  - destruct written as [|v written]; [discriminate H|].
    simpl. f_equal. apply IH. now injection H.
Qed.

Lemma sum_values_slot_sum (values : list Z) :
  sum_values (Z.of_nat (List.length values)) values = to_u64 (slot_sum values).
Proof.
  unfold sum_values. rewrite Nat2Z.id.
  pose proof (fold_nth_seq (fun t v => to_u64 (t + v)) values [] 0) as H.
  simpl in H. rewrite H.
  apply (fold_wrap_sum values 0).
Qed.

End Aggregator.

(** C4: for an entry read with N per-CPU slots, the total the aggregator
    computes is the arithmetic sum of the N slots modulo 2^64: it wraps
    and does not saturate (two slots 2^64 - 1 and 1 give 0), also when
    every slot is zero and when N = 1. *)
Theorem sum_values_is_sum_mod_2_64 :
  (forall values : list Z,
      sum_values (Z.of_nat (List.length values)) values
      = slot_sum values mod 2 ^ 64)
  /\ (forall v : Z, sum_values 1 [v] = v mod 2 ^ 64)
  /\ (forall n : nat, sum_values (Z.of_nat n) (repeat 0 n) = 0)
  /\ sum_values 2 [2 ^ 64 - 1; 1] = 0.
Proof.
  split; [|split; [|split]].
  - intros values. apply sum_values_slot_sum.
  - intros v. change 1 with (Z.of_nat (List.length [v])).
    rewrite sum_values_slot_sum. unfold slot_sum, to_u64. simpl.
    now rewrite Z.add_0_r.
  - intros n.
    rewrite <- (repeat_length 0 n) at 1.
    rewrite sum_values_slot_sum.
    replace (slot_sum (repeat 0 n)) with 0; [reflexivity|].
    induction n as [|n IH]; simpl; [reflexivity|]. now rewrite <- IH.
  - reflexivity.
Qed.

(** ** The schema validator *)

Lemma mismatch_fmt_inj (f g : field) : mismatch_fmt f = mismatch_fmt g -> f = g.
Proof.
  destruct f, g; intros H; try reflexivity; vm_compute in H; discriminate H.
Qed.

Lemma mismatch_report_inj f g o o' e e' :
  mismatch_report f o e = mismatch_report g o' e' -> f = g /\ o = o' /\ e = e'.
Proof.
  unfold mismatch_report. intros H. injection H as Hf Ho He.
  auto using mismatch_fmt_inj.
Qed.

Section Validator.

Context {K : Type}.
Variable env : libbpf K.
Variable codes : exit_codes.

(** What the validator does on a live descriptor, by the first
    mismatching field. *)
Lemma check_map_fd_info_live map_fd info0 exp k live k' :
  0 <= map_fd ->
  bpf_obj_get_info_by_fd env map_fd k = (inl live, k') ->
  __check_map_fd_info env codes map_fd info0 exp k =
  match spec_first_mismatch live exp with
  | None => ([EvGetInfoByFd map_fd (inl live)], k', Some (0, live))
  | Some f =>
      ([EvGetInfoByFd map_fd (inl live);
        mismatch_report f (field_of f live) (field_of f exp)],
       k', Some (EXIT_FAIL codes, live))
  end.
Proof.
  intros Hfd Hinfo. unfold __check_map_fd_info.
  destruct (map_fd <? 0) eqn:E; [apply Z.ltb_lt in E; lia|].
  unfold spec_first_mismatch, check_order, find, mismatches, field_of.
  run_unfold. rewrite Hinfo.
  destruct (negb (key_size exp =? 0) && negb (key_size exp =? key_size live));
    [reflexivity|].
  destruct (negb (value_size exp =? 0)
            && negb (value_size exp =? value_size live)); [reflexivity|].
  destruct (negb (max_entries exp =? 0)
            && negb (max_entries exp =? max_entries live)); [reflexivity|].
  destruct (negb (type exp =? 0) && negb (type exp =? type live));
    reflexivity.
Qed.

End Validator.

(** C1: on a live table descriptor (a valid descriptor number whose
    metadata the kernel returns) the validator checks key size, value
    size, max entries and type in that order, a field mismatching when
    its expectation is non-zero and differs from the live value.  With no
    mismatch it returns 0 and reports nothing; otherwise it returns
    EXIT_FAIL at once with exactly one diagnostic, that of the first
    mismatching field in the order, carrying the observed and the expected
    value, and nothing about later fields. *)
Theorem check_map_fd_info_first_mismatch :
  forall (K : Type) (env : libbpf K) (codes : exit_codes)
         (map_fd : Z) (info0 exp live : bpf_map_info) (k k' : K),
    0 <= map_fd ->
    bpf_obj_get_info_by_fd env map_fd k = (inl live, k') ->
    __check_map_fd_info env codes map_fd info0 exp k =
    match find (mismatches live exp) [KeySize; ValueSize; MaxEntries; MapType] with
    | None => ([EvGetInfoByFd map_fd (inl live)], k', Some (0, live))
    | Some f =>
        ([EvGetInfoByFd map_fd (inl live);
          EvPrintf stderr (mismatch_fmt f)
            [ArgStr (Some "__check_map_fd_info");
             ArgInt (field_of f live); ArgInt (field_of f exp)]],
         k', Some (EXIT_FAIL codes, live))
    end.
Proof.
  intros K env codes map_fd info0 exp live k k' Hfd Hinfo.
  exact (check_map_fd_info_live env codes map_fd info0 exp k live k' Hfd Hinfo).
Qed.

(** Key size and value size both mismatch: only the key size is
    reported. *)
Lemma check_map_fd_info_first_mismatch_witness :
  0 <= 5
  /\ bpf_obj_get_info_by_fd Sim.env 5 Sim.good = (inl Sim.stats_info, Sim.good)
  /\ __check_map_fd_info Sim.env Sim.codes 5 bpf_map_info_zero
       {| type := 0; id := 0; key_size := 8; value_size := 4;
          max_entries := 0; name := "" |} Sim.good
     = ([EvGetInfoByFd 5 (inl Sim.stats_info);
         EvPrintf stderr
           (ln "ERR: %s() Map key size(%d) mismatch expected size(%d)")
           [ArgStr (Some "__check_map_fd_info"); ArgInt 4; ArgInt 8]],
        Sim.good, Some (1, Sim.stats_info)).
Proof.
  split; [lia|]. split; [reflexivity|].
  exact (check_map_fd_info_first_mismatch Sim.world Sim.env Sim.codes 5
           bpf_map_info_zero
           {| type := 0; id := 0; key_size := 8; value_size := 4;
              max_entries := 0; name := "" |}
           Sim.stats_info Sim.good Sim.good ltac:(lia) eq_refl).
Defined.

(** The table of the example, 4-byte keys and 8-byte slots, passes the
    check [main] makes. *)
Example check_map_fd_info_stats_map :
  __check_map_fd_info Sim.env Sim.codes 5 bpf_map_info_zero map_expect Sim.good
  = ([EvGetInfoByFd 5 (inl Sim.stats_info)], Sim.good, Some (0, Sim.stats_info)).
Proof. reflexivity. Qed.

(** C5: an expectation whose four checked fields are all zero is accepted
    against every live descriptor: the validator returns 0 and reports
    nothing; and whatever the other fields, a field whose expectation is
    zero is never the one reported. *)
Theorem check_map_fd_info_wildcard :
  forall (K : Type) (env : libbpf K) (codes : exit_codes)
         (map_fd : Z) (info0 exp live : bpf_map_info) (k k' : K),
    0 <= map_fd ->
    bpf_obj_get_info_by_fd env map_fd k = (inl live, k') ->
    (key_size exp = 0 -> value_size exp = 0 ->
     max_entries exp = 0 -> type exp = 0 ->
     __check_map_fd_info env codes map_fd info0 exp k
     = ([EvGetInfoByFd map_fd (inl live)], k', Some (0, live)))
    /\ (forall f o e,
          field_of f exp = 0 ->
          ~ In (mismatch_report f o e)
               (events (__check_map_fd_info env codes map_fd info0 exp k))).
Proof.
  intros K env codes map_fd info0 exp live k k' Hfd Hinfo.
  rewrite (check_map_fd_info_live env codes map_fd info0 exp k live k' Hfd Hinfo).
  split.
  - intros Hk Hv Hm Ht.
    unfold spec_first_mismatch, check_order, find, mismatches, field_of.
    rewrite Hk, Hv, Hm, Ht. reflexivity.
  - intros f o e Hz Hin.
    destruct (spec_first_mismatch live exp) as [g|] eqn:E; simpl in Hin.
    + destruct Hin as [H|[H|[]]]; [discriminate H|].
      apply mismatch_report_inj in H. destruct H as [-> _].
      apply find_some in E. destruct E as [_ E].
      unfold mismatches in E. rewrite Hz in E. discriminate E.
    + destruct Hin as [H|[]]. discriminate H.
Qed.

Lemma check_map_fd_info_wildcard_witness :
  __check_map_fd_info Sim.env Sim.codes 5 bpf_map_info_zero bpf_map_info_zero
    Sim.good
  = ([EvGetInfoByFd 5 (inl Sim.stats_info)], Sim.good, Some (0, Sim.stats_info)).
Proof.
  refine (proj1 (check_map_fd_info_wildcard Sim.world Sim.env Sim.codes 5
                   bpf_map_info_zero bpf_map_info_zero Sim.stats_info
                   Sim.good Sim.good _ _) _ _ _ _);
    first [lia | reflexivity].
Defined.

(** ** The loader and attacher *)

(** C3: the pipeline always returns, and returns either the object, after
    exactly open, load, program selection and attach all succeeded and
    with nothing released, or nothing; when it returns nothing, either the
    open itself failed and nothing else was called, or the object was
    opened, one of load, program selection or attach failed, and the
    object was released, once, as the last action before returning. *)
Theorem load_bpf_and_trace_attach_all_or_nothing :
  forall (K : Type) (env : libbpf K) (cfg : config) (k : K),
    let r := load_bpf_and_trace_attach env cfg k in
    match value r with
    | None => False
    | Some (Some obj) =>
        exists prog link,
          events r =
          [EvOpenFile (filename cfg) (ValidPtr obj); EvLoad obj 0;
           EvNextProgram obj (Some prog);
           EvAttachTracepoint prog "xdp" "xdp_exception" (ValidPtr link)]
    | Some None =>
        (exists e, events r = [EvOpenFile (filename cfg) (ErrPtr e)])
        \/ (exists obj t,
               events r
               = EvOpenFile (filename cfg) (ValidPtr obj) :: t ++ [EvClose obj]
               /\ failed_after_open obj t
               /\ closed_objects (events r) = [obj])
    end.
Proof.
  intros K env cfg k. unfold load_bpf_and_trace_attach, err_exit.
  run_unfold. cbv zeta.
  destruct (bpf_object__open_file env (filename cfg) k) as [[obj|e0] k1];
    simpl; [|left; eauto].
  destruct (bpf_object__load env obj k1) as [e k2]; simpl.
  destruct (e =? 0) eqn:He; simpl.
  - apply Z.eqb_eq in He. subst e.
    destruct (bpf_object__next_program env obj k2) as [[prog|] k3]; simpl.
    + destruct (bpf_program__attach_tracepoint env prog "xdp" "xdp_exception" k3)
        as [[link|e1] k4]; simpl.
      * exists prog, link. reflexivity.
      * right. exists obj. eexists. split; [|split].
        -- simpl. do 4 f_equal.
           instantiate (1 := [_; _; _; _]). reflexivity.
        -- right. right. do 5 eexists. reflexivity.
        -- reflexivity.
    + right. exists obj. eexists. split; [|split].
      * simpl. do 3 f_equal. instantiate (1 := [_; _; _]). reflexivity.
      * right. left. do 3 eexists. reflexivity.
      * reflexivity.
  - apply Z.eqb_neq in He.
    right. exists obj. eexists. split; [|split].
    + simpl. do 2 f_equal. instantiate (1 := [_; _]). reflexivity.
    + left. exists e. do 3 eexists. split; [exact He|reflexivity].
    + reflexivity.
Qed.

(** ** The scan and the polling loop *)

Section Poller.

Context {K : Type}.
Variable env : libbpf K.

Lemma scan_body_events map_fd nr_cpus l k :
  Forall (scan_event nr_cpus) (events (scan_body env map_fd nr_cpus l k)).
Proof.
  unfold scan_body. run_unfold.
  destruct (bpf_map_get_next_key env map_fd (deref (prev_keyp l) l) k)
    as [[k'|e] k1]; simpl.
  - destruct (bpf_map_lookup_elem env map_fd k' k1) as [[vs|] k2]; simpl.
    + destruct (if_indextoname env (to_u32 k') k2) as [dev k3]; simpl.
      repeat constructor.
    + repeat constructor.
  - repeat constructor.
Qed.

(** A scan is the query of the CPU count, the enumeration loop, and, when
    the loop ends, the newline. *)
Lemma stats_print_run fuel map_fd k :
  stats_print env fuel map_fd k =
  match libbpf_num_possible_cpus env k with
  | (n, k1) =>
      if 8 * to_u32 n <=? stack_room env k1 then
        match while_true fuel (scan_body env map_fd (to_u32 n))
                (scan_entry 0 (stack_values env (to_u32 n) k1)) k1
        with
        | (t, k2, Some _) =>
            (EvNumPossibleCpus n :: t ++ [EvPrintf stdout nl []], k2, Some tt)
        | (t, k2, None) => (EvNumPossibleCpus n :: t, k2, None)
        end
      else ([EvNumPossibleCpus n], k1, None)
  end.
Proof.
  unfold stats_print, alloca_values. run_unfold.
  destruct (libbpf_num_possible_cpus env k) as [n k1]. cbv zeta.
  destruct (8 * to_u32 n <=? stack_room env k1); [|reflexivity].
  destruct (while_true fuel (scan_body env map_fd (to_u32 n)) _ k1)
    as [[t k2] [l|]]; reflexivity.
Qed.

Lemma stats_print_events fuel map_fd k :
  exists t,
    events (stats_print env fuel map_fd k)
    = EvNumPossibleCpus (fst (libbpf_num_possible_cpus env k)) :: t
    /\ Forall (scan_event (to_u32 (fst (libbpf_num_possible_cpus env k)))) t.
Proof.
  rewrite stats_print_run.
  destruct (libbpf_num_possible_cpus env k) as [n k1]. cbn [fst].
  destruct (8 * to_u32 n <=? stack_room env k1);
    [|exists []; split; [reflexivity|constructor]].
  pose proof (while_true_events (scan_event (to_u32 n))
                (scan_body env map_fd (to_u32 n))
                (scan_body_events map_fd (to_u32 n)) fuel
                (scan_entry 0 (stack_values env (to_u32 n) k1)) k1)
    as H.
  destruct (while_true fuel (scan_body env map_fd (to_u32 n)) _ k1)
    as [[t k2] [l|]]; simpl in *.
  - eexists. split; [reflexivity|].
    apply Forall_app. split; [exact H|]. repeat constructor.
  - eexists. split; [reflexivity|exact H].
Qed.

(** A scan that returns has printed the newline last. *)
Lemma stats_print_returns fuel map_fd k :
  value (stats_print env fuel map_fd k) = Some tt ->
  exists t,
    events (stats_print env fuel map_fd k) = t ++ [EvPrintf stdout nl []].
Proof.
  rewrite stats_print_run.
  destruct (libbpf_num_possible_cpus env k) as [n k1].
  destruct (8 * to_u32 n <=? stack_room env k1);
    [|intros H; discriminate H].
  destruct (while_true fuel (scan_body env map_fd (to_u32 n)) _ k1)
    as [[t k2] [l|]]; simpl; intros H; [|discriminate H].
  exists (EvNumPossibleCpus n :: t). reflexivity.
Qed.

Lemma cycle_run fuel map_fd interval k :
  cycle env fuel map_fd interval k =
  match stats_print env fuel map_fd k with
  | (t, k1, Some _) => (t ++ [EvSleep interval], sleep env interval k1, Some tt)
  | (t, k1, None) => (t, k1, None)
  end.
Proof.
  unfold cycle. run_unfold.
  destruct (stats_print env fuel map_fd k) as [[t k1] [u|]]; reflexivity.
Qed.

Lemma poll_body_run fuel map_fd interval k :
  poll_body env fuel map_fd interval tt k =
  match cycle env fuel map_fd interval k with
  | (t, k1, Some _) => (t, k1, Some (Continue, tt))
  | (t, k1, None) => (t, k1, None)
  end.
Proof.
  unfold poll_body. rewrite cycle_run. run_unfold.
  destruct (stats_print env fuel map_fd k) as [[t k1] [u|]];
    reflexivity.
Qed.

(** The loop body never breaks. *)
Lemma poll_loop_never_returns n fuel map_fd interval k :
  value (while_true n (poll_body env fuel map_fd interval) tt k) = None.
Proof.
  apply (while_true_diverges (fun _ _ => True)); [|exact I].
  intros [] k0 _. rewrite poll_body_run.
  destruct (cycle env fuel map_fd interval k0) as [[t k1] [u|]]; exact I.
Qed.



End Poller.

(** Two complete cycles on the example table are followed by a third. *)
Example stats_poll_third_cycle :
  stats_poll Sim.env 3 5 5 5 2 Sim.good =
  (EvSetlocale "LC_NUMERIC" "en_US"
     :: events (cycles Sim.env 2 5 5 2 Sim.good)
     ++ events (cycle Sim.env 5 5 2 Sim.good),
   Sim.good, None).
Proof. reflexivity. Qed.



(** ** The enumeration cursor *)

Section Cursor.

Context {K : Type}.
Variable env : libbpf K.

(** The three ways an iteration goes. *)
Lemma scan_body_run map_fd nr_cpus l k :
  scan_body env map_fd nr_cpus l k =
  let prev := deref (prev_keyp l) l in
  match bpf_map_get_next_key env map_fd prev k with
  | (inr errno, k1) => ([EvGetNextKey map_fd prev (inr errno)], k1, Some (Break, l))
  | (inl key', k1) =>
      match bpf_map_lookup_elem env map_fd key' k1 with
      | (None, k2) =>
          ([EvGetNextKey map_fd prev (inl key');
            EvLookupElem map_fd key' nr_cpus None;
            EvPrintf stderr lookup_failed_fmt [ArgInt key']],
           k2,
           Some (Continue, {| key := key'; prev_keyp := prev_keyp l;
                              values := values l |}))
      | (Some written, k2) =>
          match if_indextoname env (to_u32 key') k2 with
          | (dev, k3) =>
              ([EvGetNextKey map_fd prev (inl key');
                EvLookupElem map_fd key' nr_cpus (Some written);
                EvIfIndexToName (to_u32 key') dev;
                EvPrintf stdout "%s (%llu) "
                  [ArgStr dev;
                   ArgInt (sum_values nr_cpus (copy_out written (values l)))]],
               k3,
               Some (Continue, {| key := key'; prev_keyp := AddrOfKey;
                                  values := copy_out written (values l) |}))
          end
      end
  end.
Proof.
  unfold scan_body. run_unfold. cbv zeta.
  destruct (bpf_map_get_next_key env map_fd (deref (prev_keyp l) l) k)
    as [[key'|e] k1]; simpl; [|reflexivity].
  destruct (bpf_map_lookup_elem env map_fd key' k1) as [[vs|] k2]; simpl;
    [|reflexivity].
  destruct (if_indextoname env (to_u32 key') k2) as [dev k3]; reflexivity.
Qed.

(** The value [key] holds on entry is never read: the first call for a
    key is made from NULL, and every other use of [key] follows a call that
    wrote it. *)
Lemma scan_entry_key_irrelevant map_fd nr_cpus n key0 key1 values0 k :
  events (while_true n (scan_body env map_fd nr_cpus)
            (scan_entry key0 values0) k)
  = events (while_true n (scan_body env map_fd nr_cpus)
              (scan_entry key1 values0) k)
  /\ world (while_true n (scan_body env map_fd nr_cpus)
              (scan_entry key0 values0) k)
     = world (while_true n (scan_body env map_fd nr_cpus)
                (scan_entry key1 values0) k).
Proof.
  destruct n as [|n]; [split; reflexivity|].
  rewrite !while_true_unroll, !scan_body_run. simpl deref. cbv zeta.
  destruct (bpf_map_get_next_key env map_fd None k) as [[key'|e] k1];
    [|split; reflexivity].
  destruct (bpf_map_lookup_elem env map_fd key' k1) as [[vs|] k2];
    [|split; reflexivity].
  destruct (if_indextoname env (to_u32 key') k2) as [dev k3].
  split; reflexivity.
Qed.

(** The total a successful read prints is the sum of the slots read, modulo
    2^64, when the read filled the [nr_cpus] slots of the array. *)
Lemma scan_body_prints_sum map_fd nr_cpus l k key' k1 written k2 :
  bpf_map_get_next_key env map_fd (deref (prev_keyp l) l) k = (inl key', k1) ->
  bpf_map_lookup_elem env map_fd key' k1 = (Some written, k2) ->
  Z.of_nat (List.length written) = nr_cpus ->
  List.length (values l) = List.length written ->
  In (EvPrintf stdout "%s (%llu) "
        [ArgStr (fst (if_indextoname env (to_u32 key') k2));
         ArgInt (slot_sum written mod 2 ^ 64)])
     (events (scan_body env map_fd nr_cpus l k)).
Proof.
  intros Hnext Hread Hlen Hbuf. rewrite scan_body_run. cbv zeta.
  rewrite Hnext, Hread.
  destruct (if_indextoname env (to_u32 key') k2) as [dev k3].
  rewrite copy_out_full by exact Hbuf.
  rewrite <- Hlen, sum_values_slot_sum.
  unfold events, to_u64. simpl. tauto.
Qed.

(** While the cursor is NULL, the loop can only be left through a
    next-key call from NULL that reports exhaustion or an error, unless a
    read succeeds first. *)
Lemma scan_loop_exit_from_null map_fd nr_cpus :
  forall n l k,
    prev_keyp l = NULLp ->
    value (while_true n (scan_body env map_fd nr_cpus) l k) <> None ->
    existsb read_ok
      (events (while_true n (scan_body env map_fd nr_cpus) l k)) = true
    \/ exists errno,
        In (EvGetNextKey map_fd None (inr errno))
           (events (while_true n (scan_body env map_fd nr_cpus) l k)).
Proof.
  induction n as [|n IH]; intros l k Hnull Hret.
  - now contradiction Hret.
  - rewrite while_true_unroll in *. rewrite scan_body_run in *.
    rewrite Hnull in *. simpl deref in *. cbv zeta in *.
    destruct (bpf_map_get_next_key env map_fd None k) as [[key'|e] k1].
    + destruct (bpf_map_lookup_elem env map_fd key' k1) as [[vs|] k2].
      * destruct (if_indextoname env (to_u32 key') k2) as [dev k3].
        destruct (while_true n _ _ k3) as [[t2 k4] r]. left. reflexivity.
      * specialize (IH {| key := key'; prev_keyp := NULLp; values := values l |} k2 eq_refl).
        destruct (while_true n _ _ k2) as [[t2 k4] r].
        unfold events, value in *. simpl in *.
        destruct (IH Hret) as [H|[errno H]]; [left; exact H|].
        right. exists errno. auto.
    + right. exists e. unfold events. simpl. auto.
Qed.

End Cursor.

(** C10: the cursor [prev_keyp] leaves NULL only when a read succeeds.  An
    iteration entered with the cursor NULL asks for the next key from NULL
    and leaves the cursor pointing at the key exactly when the read of
    that key succeeded; when that read fails, the next call for a key is
    again made from NULL, so it restarts the enumeration instead of moving
    past the key; and a scan returns only if some read succeeded or a
    next-key call from NULL itself reported exhaustion or an error, so
    with a first key whose read fails at every retry the scan does not
    return. *)
Theorem stats_print_cursor_leaves_null_on_success :
  forall (K : Type) (env : libbpf K) (map_fd nr_cpus : Z),
    (forall l k,
        prev_keyp l = NULLp ->
        let r := scan_body env map_fd nr_cpus l k in
        (exists res, hd_error (events r) = Some (EvGetNextKey map_fd None res))
        /\ match value r with
           | Some (_, l') =>
               prev_keyp l' = if existsb read_ok (events r)
                              then AddrOfKey else NULLp
           | None => False
           end)
    /\ (forall n l k key1 k1 k2,
           prev_keyp l = NULLp ->
           bpf_map_get_next_key env map_fd None k = (inl key1, k1) ->
           bpf_map_lookup_elem env map_fd key1 k1 = (None, k2) ->
           exists t,
             events (while_true (S (S n)) (scan_body env map_fd nr_cpus) l k)
             = [EvGetNextKey map_fd None (inl key1);
                EvLookupElem map_fd key1 nr_cpus None;
                EvPrintf stderr lookup_failed_fmt [ArgInt key1];
                EvGetNextKey map_fd None
                  (fst (bpf_map_get_next_key env map_fd None k2))] ++ t)
    /\ (forall fuel k,
           value (stats_print env fuel map_fd k) = Some tt ->
           existsb read_ok (events (stats_print env fuel map_fd k)) = true
           \/ exists errno,
               In (EvGetNextKey map_fd None (inr errno))
                  (events (stats_print env fuel map_fd k))).
Proof.
  intros K env map_fd nr_cpus. split; [|split].
  - intros l k Hnull r. subst r. rewrite scan_body_run, Hnull. simpl deref.
    cbv zeta.
    destruct (bpf_map_get_next_key env map_fd None k) as [[key'|e] k1].
    + destruct (bpf_map_lookup_elem env map_fd key' k1) as [[vs|] k2].
      * destruct (if_indextoname env (to_u32 key') k2) as [dev k3].
        unfold events, value. simpl. eauto.
      * unfold events, value. simpl. eauto.
    + unfold events, value. simpl. eauto.
  - intros n l k key1 k1 k2 Hnull Hnext Hread.
    rewrite while_true_unroll, scan_body_run, Hnull. simpl deref. cbv zeta.
    rewrite Hnext, Hread.
    rewrite while_true_unroll, scan_body_run. simpl deref. cbv zeta.
    destruct (bpf_map_get_next_key env map_fd None k2) as [[key'|e] k3].
    + destruct (bpf_map_lookup_elem env map_fd key' k3) as [[vs|] k4].
      * destruct (if_indextoname env (to_u32 key') k4) as [dev k5].
        destruct (while_true n _ _ k5) as [[t2 k6] r].
        unfold events. simpl. eauto.
      * destruct (while_true n _ _ k4) as [[t2 k6] r].
        unfold events. simpl. eauto.
    + unfold events. simpl. eauto.
  - intros fuel k. rewrite stats_print_run.
    destruct (libbpf_num_possible_cpus env k) as [n k1].
    destruct (8 * to_u32 n <=? stack_room env k1);
      [|intros Hret; discriminate Hret].
    pose proof (scan_loop_exit_from_null env map_fd (to_u32 n) fuel
                  (scan_entry 0 (stack_values env (to_u32 n) k1)) k1 eq_refl)
      as H.
    destruct (while_true fuel _ _ k1) as [[t k2] [l|]];
      unfold events, value in *; simpl in *; intros Hret;
      [|discriminate Hret].
    destruct H as [H|[errno H]]; [discriminate| |].
    + left. rewrite existsb_app, H. reflexivity.
    + right. exists errno. right. apply in_or_app. now left.
Qed.

(** The first read of key 1 fails once: the scan returns, after a read
    that succeeded. *)
Lemma stats_print_cursor_leaves_null_on_success_witness :
  value (stats_print Sim.env 5 5 Sim.fails_once) = Some tt
  /\ (existsb read_ok (events (stats_print Sim.env 5 5 Sim.fails_once)) = true
      \/ exists errno,
          In (EvGetNextKey 5 None (inr errno))
             (events (stats_print Sim.env 5 5 Sim.fails_once))).
Proof.
  split; [reflexivity|].
  exact (proj2 (proj2 (stats_print_cursor_leaves_null_on_success
                         Sim.world Sim.env 5 2))
           5%nat Sim.fails_once eq_refl).
Defined.

(** ** A read that fails *)

Section ReadFailure.

Context {K : Type}.
Variable env : libbpf K.

(** Once a read has succeeded the cursor is the key cell itself, and a
    failing read is passed over: the next call for a key is made from
    the key whose read failed. *)
Lemma scan_loop_skips_after_success map_fd nr_cpus n l k key1 k1 k2 :
  prev_keyp l = AddrOfKey ->
  bpf_map_get_next_key env map_fd (Some (key l)) k = (inl key1, k1) ->
  bpf_map_lookup_elem env map_fd key1 k1 = (None, k2) ->
  exists t,
    events (while_true (S (S n)) (scan_body env map_fd nr_cpus) l k)
    = [EvGetNextKey map_fd (Some (key l)) (inl key1);
       EvLookupElem map_fd key1 nr_cpus None;
       EvPrintf stderr lookup_failed_fmt [ArgInt key1];
       EvGetNextKey map_fd (Some key1)
         (fst (bpf_map_get_next_key env map_fd (Some key1) k2))] ++ t.
Proof.
  intros Hp Hnext Hread.
  rewrite while_true_unroll, scan_body_run, Hp. simpl deref. cbv zeta.
  rewrite Hnext, Hread.
  rewrite while_true_unroll, scan_body_run. simpl deref. cbv zeta.
  destruct (bpf_map_get_next_key env map_fd (Some key1) k2) as [[key'|e] k3].
  - destruct (bpf_map_lookup_elem env map_fd key' k3) as [[vs|] k4].
    + destruct (if_indextoname env (to_u32 key') k4) as [dev k5].
      destruct (while_true n _ _ k5) as [[t2 k6] r].
      unfold events. simpl. eauto.
    + destruct (while_true n _ _ k4) as [[t2 k6] r].
      unfold events. simpl. eauto.
  - unfold events. simpl. eauto.
Qed.

End ReadFailure.

Lemma scan_body_first_broken (key0 : Z) (values0 : list Z) :
  scan_body Sim.env 5 2 (scan_entry key0 values0) Sim.first_broken
  = (retry_of_key_1, Sim.first_broken,
     Some (Continue, scan_entry 1 values0)).
Proof. reflexivity. Qed.

Lemma scan_loop_first_broken (n : nat) (values0 : list Z) :
  forall key0,
    while_true n (scan_body Sim.env 5 2) (scan_entry key0 values0)
      Sim.first_broken
    = (List.concat (repeat retry_of_key_1 n), Sim.first_broken, None).
Proof.
  induction n as [|n IH]; intros key0.
  - reflexivity.
  - rewrite while_true_unroll, scan_body_first_broken, IH. reflexivity.
Qed.

(** C2, on a table with keys 1 and 2 whose first key cannot be read.  When
    the read of key 1 fails once, the scan does not pass to key 2: it asks
    for the next key from NULL again and reads key 1 a second time.  When
    the read of key 1 fails every time, the scan never returns, whatever
    the fuel: it is the same three calls over and over, key 2 is neither
    read nor reported, and the newline is not printed. *)
Theorem stats_print_first_read_failure_retries :
  events (stats_print Sim.env 5 5 Sim.fails_once)
  = [EvNumPossibleCpus 2;
     EvGetNextKey 5 None (inl 1); EvLookupElem 5 1 2 None;
     EvPrintf stderr lookup_failed_fmt [ArgInt 1];
     EvGetNextKey 5 None (inl 1); EvLookupElem 5 1 2 (Some [10; 20]);
     EvIfIndexToName 1 (Some "lo");
     EvPrintf stdout "%s (%llu) " [ArgStr (Some "lo"); ArgInt 30];
     EvGetNextKey 5 (Some 1) (inl 2); EvLookupElem 5 2 2 (Some [5; 5]);
     EvIfIndexToName 2 (Some "eth0");
     EvPrintf stdout "%s (%llu) " [ArgStr (Some "eth0"); ArgInt 10];
     EvGetNextKey 5 (Some 2) (inr ENOENT); EvPrintf stdout nl []]
  /\ forall fuel,
      stats_print Sim.env fuel 5 Sim.first_broken
      = (EvNumPossibleCpus 2 :: List.concat (repeat retry_of_key_1 fuel),
         Sim.first_broken, None).
Proof.
  split; [reflexivity|].
  intros fuel. rewrite stats_print_run.
  change (libbpf_num_possible_cpus Sim.env Sim.first_broken)
    with (2, Sim.first_broken).
  change (to_u32 2) with 2.
  change (8 * 2 <=? stack_room Sim.env Sim.first_broken) with true.
  cbv iota. now rewrite scan_loop_first_broken.
Qed.

(** The same failure on the second key is passed over. *)
Example stats_print_second_read_failure_skips :
  events (stats_print Sim.env 5 5 Sim.second_fails_once)
  = [EvNumPossibleCpus 2;
     EvGetNextKey 5 None (inl 1); EvLookupElem 5 1 2 (Some [10; 20]);
     EvIfIndexToName 1 (Some "lo");
     EvPrintf stdout "%s (%llu) " [ArgStr (Some "lo"); ArgInt 30];
     EvGetNextKey 5 (Some 1) (inl 2); EvLookupElem 5 2 2 None;
     EvPrintf stderr lookup_failed_fmt [ArgInt 2];
     EvGetNextKey 5 (Some 2) (inr ENOENT); EvPrintf stdout nl []].
Proof. reflexivity. Qed.

(** ** A cycle that does not end *)

Lemma in_concat_repeat {A} (x : A) (l : list A) (n : nat) :
  In x (List.concat (repeat l n)) -> In x l.
Proof.
  induction n as [|n IH]; simpl; [contradiction|].
  intros H. apply in_app_or in H. tauto.
Qed.

Lemma stats_print_first_broken (fuel : nat) :
  stats_print Sim.env fuel 5 Sim.first_broken
  = (EvNumPossibleCpus 2 :: List.concat (repeat retry_of_key_1 fuel),
     Sim.first_broken, None).
Proof.
  rewrite stats_print_run.
  change (libbpf_num_possible_cpus Sim.env Sim.first_broken)
    with (2, Sim.first_broken).
  change (to_u32 2) with 2.
  change (8 * 2 <=? stack_room Sim.env Sim.first_broken) with true.
  cbv iota. now rewrite scan_loop_first_broken.
Qed.

Lemma stats_poll_first_broken (cycles fuel : nat) :
  stats_poll Sim.env (S cycles) fuel 5 5 2 Sim.first_broken
  = (EvSetlocale "LC_NUMERIC" "en_US" :: EvNumPossibleCpus 2
       :: List.concat (repeat retry_of_key_1 fuel),
     Sim.first_broken, None).
Proof.
  unfold stats_poll, bind, call_.
  change (setlocale Sim.env "LC_NUMERIC" "en_US" Sim.first_broken)
    with Sim.first_broken.
  rewrite while_true_unroll, poll_body_run, cycle_run, stats_print_first_broken.
  reflexivity.
Qed.

(** When the stack has no room for the array, a scan is the query of the
    CPU count and nothing else, whatever the fuel, and so is the first
    cycle of the poller. *)
Lemma stats_print_killed {K : Type} (env : libbpf K) fuel map_fd k :
  stack_room env (snd (libbpf_num_possible_cpus env k))
  < 8 * to_u32 (fst (libbpf_num_possible_cpus env k)) ->
  stats_print env fuel map_fd k
  = ([EvNumPossibleCpus (fst (libbpf_num_possible_cpus env k))],
     snd (libbpf_num_possible_cpus env k), None).
Proof.
  rewrite stats_print_run.
  destruct (libbpf_num_possible_cpus env k) as [n k1]. cbn [fst snd].
  intros H.
  destruct (8 * to_u32 n <=? stack_room env k1) eqn:E; [|reflexivity].
  apply Z.leb_le in E. lia.
Qed.

Lemma stats_poll_killed {K : Type} (env : libbpf K) cycles fuel map_fd map_type
    interval k :
  let k0 := setlocale env "LC_NUMERIC" "en_US" k in
  stack_room env (snd (libbpf_num_possible_cpus env k0))
  < 8 * to_u32 (fst (libbpf_num_possible_cpus env k0)) ->
  stats_poll env (S cycles) fuel map_fd map_type interval k
  = ([EvSetlocale "LC_NUMERIC" "en_US";
      EvNumPossibleCpus (fst (libbpf_num_possible_cpus env k0))],
     snd (libbpf_num_possible_cpus env k0), None).
Proof.
  intros k0 H. unfold stats_poll, bind, call_. fold k0.
  rewrite while_true_unroll, poll_body_run, cycle_run.
  rewrite (stats_print_killed env fuel map_fd k0 H). reflexivity.
Qed.

(** C8, on a table with keys 1 and 2 whose first key cannot be read, and
    in an environment in which the CPU count cannot be read.  The loop of
    [stats_poll] has no exit, but its first cycle need not end.  When
    every read of key 1 fails, the poller, whatever the bounds on its
    cycles and on the iterations of a scan, sets the locale, asks for the
    CPU count once and then repeats the same three calls: no aggregate
    line is completed by its newline, the process never blocks for the
    interval, and no second cycle begins.  When the query of the CPU count
    fails, the process is killed in its first cycle, before it asks for a
    key: the loop does end, by a signal. *)
Theorem stats_poll_cycle_never_completes :
  (forall cycles fuel,
      stats_poll Sim.env (S cycles) fuel 5 5 2 Sim.first_broken
      = (EvSetlocale "LC_NUMERIC" "en_US" :: EvNumPossibleCpus 2
           :: List.concat (repeat retry_of_key_1 fuel),
         Sim.first_broken, None))
  /\ (forall cycles fuel,
         ~ In (EvPrintf stdout nl [])
              (events (stats_poll Sim.env cycles fuel 5 5 2 Sim.first_broken))
         /\ ~ In (EvSleep 2)
                 (events (stats_poll Sim.env cycles fuel 5 5 2
                            Sim.first_broken)))
  /\ (forall cycles fuel,
         stats_poll Sim.env (S cycles) fuel 5 5 2 Sim2.no_cpus
         = ([EvSetlocale "LC_NUMERIC" "en_US"; EvNumPossibleCpus (-1)],
            Sim2.no_cpus, None)).
Proof.
  split; [|split].
  - intros cycles fuel. apply stats_poll_first_broken.
  - intros [|cycles] fuel.
    + unfold events. simpl. split; intros [H|[]]; discriminate H.
    + rewrite stats_poll_first_broken. unfold events. cbn [fst].
      split; intros [H|[H|H]]; try discriminate H;
        apply in_concat_repeat in H; simpl in H;
        destruct H as [H|[H|[H|[]]]]; discriminate H.
  - intros cycles fuel.
    apply (stats_poll_killed Sim.env cycles fuel 5 5 2 Sim2.no_cpus).
    simpl. reflexivity.
Qed.

(** ** The output line *)

Section OutputLine.

Context {K : Type}.
Variable env : libbpf K.

Lemma output_app sep out (t1 t2 : trace) :
  output sep out (t1 ++ t2)
  = String.append (output sep out t1) (output sep out t2).
Proof.
  induction t1 as [|e t1 IH]; simpl; [reflexivity|].
  destruct e; try exact IH.
  destruct out0, out; try exact IH; rewrite IH;
    induction (Fmt.sprintf sep fmt args) as [|c s IHs]; simpl;
    try reflexivity; now rewrite IHs.
Qed.

Lemma sprintf_pair sep dev total :
  Fmt.sprintf sep "%s (%llu) " [ArgStr dev; ArgInt total]
  = render_pair (dev, total).
Proof. destruct dev; reflexivity. Qed.

Lemma scan_loop_output sep map_fd nr_cpus :
  forall n l k,
    List.length (values l) = Z.to_nat nr_cpus ->
    Forall fills_buffer
      (events (while_true n (scan_body env map_fd nr_cpus) l k)) ->
    output sep stdout (events (while_true n (scan_body env map_fd nr_cpus) l k))
    = String.concat ""
        (map render_pair
           (reads (events (while_true n (scan_body env map_fd nr_cpus) l k)))).
Proof.
  induction n as [|n IH]; intros l k Hlen.
  - reflexivity.
  - rewrite while_true_unroll, scan_body_run. cbv zeta.
    destruct (bpf_map_get_next_key env map_fd (deref (prev_keyp l) l) k)
      as [[key'|e] k1]; [|reflexivity].
    destruct (bpf_map_lookup_elem env map_fd key' k1) as [[vs|] k2].
    + destruct (if_indextoname env (to_u32 key') k2) as [dev k3].
      specialize (IH {| key := key'; prev_keyp := AddrOfKey;
                        values := copy_out vs (values l) |} k3).
      destruct (while_true n _ _ k3) as [[t2 k4] r].
      unfold events in *. cbn [fst app] in *. intros Hfull.
      inversion Hfull as [|e1 tl1 _ Hfull1]; subst.
      inversion Hfull1 as [|e2 tl2 Hread Hfull2]; subst.
      inversion Hfull2 as [|e3 tl3 _ Hfull3]; subst.
      inversion Hfull3 as [|e4 tl4 _ Hfull4]; subst.
      cbn [fills_buffer] in Hread.
      assert (List.length (values l) = List.length vs) as Hvs by lia.
      rewrite (copy_out_full vs (values l) Hvs) in *.
      cbn [values] in IH. specialize (IH ltac:(lia) Hfull4).
      cbn [output reads map].
      rewrite sprintf_pair, IH.
      destruct (map render_pair (reads t2)); [|reflexivity].
      simpl. clear.
      induction (render_pair (dev, sum_values nr_cpus vs)); simpl;
        [reflexivity|now f_equal].
    + specialize (IH {| key := key'; prev_keyp := prev_keyp l;
                        values := values l |} k2 Hlen).
      destruct (while_true n _ _ k2) as [[t2 k4] r].
      unfold events in *. cbn [fst app] in *. intros Hfull.
      apply IH.
      inversion Hfull as [|e1 tl1 _ Hfull1]; subst.
      inversion Hfull1 as [|e2 tl2 _ Hfull2]; subst.
      inversion Hfull2 as [|e3 tl3 _ Hfull3]; subst. exact Hfull3.
Qed.

End OutputLine.

Lemma reads_snoc_printf (t : trace) out fmt args :
  reads (t ++ [EvPrintf out fmt args]) = reads t.
Proof.
  induction t as [|e t IH]; [reflexivity|].
  destruct e; try exact IH.
  destruct res as [values|]; [|exact IH].
  destruct t as [|e' t']; [reflexivity|].
  destruct e'; simpl in *; try (rewrite IH; reflexivity); exact IH.
Qed.

(** The line of a scan that returns: one pair for each read that
    succeeded, in the order of the reads, each followed by a space, and a
    newline; the totals in plain decimal digits, in every locale. *)
Lemma stats_print_line {K : Type} (env : libbpf K) sep fuel map_fd k :
  value (stats_print env fuel map_fd k) = Some tt ->
  Forall fills_buffer (events (stats_print env fuel map_fd k)) ->
  output sep stdout (events (stats_print env fuel map_fd k))
  = String.append
      (String.concat ""
         (map render_pair (reads (events (stats_print env fuel map_fd k)))))
      nl.
Proof.
  rewrite stats_print_run.
  destruct (libbpf_num_possible_cpus env k) as [n k1].
  destruct (8 * to_u32 n <=? stack_room env k1);
    [|intros Hret; discriminate Hret].
  pose proof (scan_loop_output env sep map_fd (to_u32 n) fuel
                (scan_entry 0 (stack_values env (to_u32 n) k1)) k1
                (stack_values_length env (to_u32 n) k1))
    as H.
  destruct (while_true fuel _ _ k1) as [[t k2] [l|]];
    unfold events, value in *; simpl fst in *; simpl snd in *;
    intros Hret Hfull; [|discriminate Hret].
  inversion Hfull as [|e0 tl0 _ Hfull']; subst.
  apply Forall_app in Hfull'. destruct Hfull' as [Hfull' _].
  specialize (H Hfull').
  change (reads (EvNumPossibleCpus n :: t ++ [EvPrintf stdout nl []]))
    with (reads (t ++ [EvPrintf stdout nl []])).
  rewrite reads_snoc_printf.
  change (output sep stdout (EvNumPossibleCpus n :: t ++ [EvPrintf stdout nl []]))
    with (output sep stdout (t ++ [EvPrintf stdout nl []])).
  rewrite output_app, H. reflexivity.
Qed.

(** Key 1 with slots 10 and 20, key 2 with slots 5 and 5: one scan prints
    the totals 30 and 10, in the order the table yields the keys. *)
Example stats_print_two_keys :
  forall sep,
    output sep stdout (events (stats_print Sim.env 5 5 Sim.good))
    = ln "lo (30) eth0 (10) ".
Proof. intros sep. reflexivity. Qed.

(** C6, on a table with one key whose slots add up to 1000: in every
    locale the scan prints the total as 1000, with no thousands grouping;
    the format it passes to printf has no ['] flag.  With the flag, and the
    comma of en_US, the same pair would read 1,000. *)
Theorem stats_print_total_not_grouped :
  (forall sep,
      output sep stdout (events (stats_print Sim.env 5 5 Sim.thousand))
      = ln "eth0 (1000) ")
  /\ In (EvPrintf stdout "%s (%llu) " [ArgStr (Some "eth0"); ArgInt 1000])
        (events (stats_print Sim.env 5 5 Sim.thousand))
  /\ Fmt.sprintf "," "%s (%'llu) " [ArgStr (Some "eth0"); ArgInt 1000]
     = "eth0 (1,000) ".
Proof.
  split; [|split].
  - intros sep. reflexivity.
  - simpl. tauto.
  - reflexivity.
Qed.

(** ** main: the errors before polling *)

Section Main.

Context {K : Type}.
Variable env : libbpf K.
Variable codes : exit_codes.

Lemma scan_event_poll_trace nr_cpus e :
  scan_event nr_cpus e -> poll_trace_event e.
Proof.
  destruct e; simpl; intros H; try contradiction;
    try (left; exact I); right; eauto.
Qed.

Lemma poll_trace_not_failed e : poll_trace_event e -> ~ step_failed e.
Proof.
  intros [H|[out [fmt [args ->]]]] Hf; [|exact Hf].
  destruct e; simpl in *; contradiction.
Qed.

(** The poller starts with [setlocale], makes no other kind of call than
    its own, and does not return. *)
Lemma stats_poll_shape cycles fuel map_fd map_type interval k :
  exists t,
    events (stats_poll env cycles fuel map_fd map_type interval k)
    = EvSetlocale "LC_NUMERIC" "en_US" :: t
    /\ Forall poll_trace_event t
    /\ value (stats_poll env cycles fuel map_fd map_type interval k) = None.
Proof.
  unfold stats_poll. rewrite events_bind, value_bind. simpl.
  eexists. split; [reflexivity|]. split.
  - apply while_true_events. intros [] k0.
    rewrite poll_body_run, cycle_run.
    destruct (stats_print_events env fuel map_fd k0) as [t [Ht Hall]].
    assert (Forall poll_trace_event (events (stats_print env fuel map_fd k0)))
      as Hp.
    { rewrite Ht. constructor; [left; exact I|].
      eapply Forall_impl; [|exact Hall].
      intros e. apply scan_event_poll_trace. }
    destruct (stats_print env fuel map_fd k0) as [[t1 k1] [u|]];
      unfold events in *; simpl in *; [|exact Hp].
    apply Forall_app. split; [exact Hp|].
    constructor; [left; exact I|constructor].
  - apply poll_loop_never_returns.
Qed.

End Main.

(** Tactics for the case analysis of [main]: a run is a concrete list of
    events once the answers of the environment are fixed. *)
Ltac in_cases H :=
  simpl in H;
  repeat lazymatch type of H with
         | _ \/ _ => destruct H as [H|H]
         | False => contradiction
         end.

Ltac split_trace :=
  first [ exists []; eexists; split; [reflexivity|]
        | eexists [_]; eexists; split; [reflexivity|]
        | eexists [_; _]; eexists; split; [reflexivity|]
        | eexists [_; _; _]; eexists; split; [reflexivity|]
        | eexists [_; _; _; _]; eexists; split; [reflexivity|]
        | eexists [_; _; _; _; _]; eexists; split; [reflexivity|]
        | eexists [_; _; _; _; _; _]; eexists; split; [reflexivity|]
        | eexists [_; _; _; _; _; _; _]; eexists; split; [reflexivity|] ];
  repeat constructor.

Ltac in_any := (left; reflexivity) + (right; in_any).

Ltac refute_step H := simpl in H; first [contradiction | lia | congruence].

Ltac prove_step := simpl; first [exact I | assumption | lia | congruence].

(** A run that ended on a failed step. *)
Ltac failed_leaf :=
  unfold events, value; simpl;
  split; [|split];
  [ intros ev Hin Hf; in_cases Hin; subst ev;
    try (exfalso; refute_step Hf);
    (split; [reflexivity|]);
    (split; [simpl; assumption|]);
    (split; [repeat constructor; intros Hp; exact Hp|]);
    split_trace
  | intros ? ? Heq; try discriminate Heq; injection Heq as <- <-; reflexivity
  | intros Hnone; exfalso;
    eapply Hnone; [in_any | prove_step] ].

(** A run that reached the poller. *)
Ltac polling_leaf env :=
  match goal with
  | |- context [stats_poll env ?c ?f ?fd ?ty ?iv ?k0] =>
      let tp := fresh "tp" in
      let Hev := fresh "Hev" in
      let Hall := fresh "Hall" in
      let Hval := fresh "Hval" in
      destruct (stats_poll_shape env c f fd ty iv k0)
        as [tp [Hev [Hall Hval]]];
      destruct (stats_poll env c f fd ty iv k0) as [[? ?] ?];
      unfold events, value in *; simpl in Hev, Hval; subst; simpl;
      split; [|split];
      [ intros ev Hin Hf; exfalso; in_cases Hin; subst;
        first [ refute_step Hf
              | apply (poll_trace_not_failed _
                         (proj1 (Forall_forall _ _) Hall _ Hin) Hf) ]
      | intros ? ? Heq; discriminate Heq
      | intros _; split; [reflexivity|];
        repeat (try (left; reflexivity); right) ]
  end.

(** A step that failed, seen in the trace: [main] has returned the status
    of that failure, nothing follows the failed step but diagnostics and
    the release of the object, and no call of the poller was made.  A run
    in which no step failed has begun polling and does not return. *)
Lemma main_failed_step_ends_run :
  forall (K : Type) (env : libbpf K) (codes : exit_codes)
         (cycles fuel : nat) (cfg : config) (verbose : bool) (k : K),
    EXIT_FAIL codes <> 0 ->
    EXIT_FAIL_BPF codes <> 0 ->
    let r := main env codes cycles fuel cfg verbose k in
    (forall e,
        In e (events r) -> step_failed e ->
        value r = Some (failure_code codes e)
        /\ failure_code codes e <> 0
        /\ Forall (fun e' => ~ polling_event e') (events r)
        /\ exists t1 t2,
            events r = t1 ++ e :: t2 /\ Forall aftermath_event t2)
    /\ (forall err k1,
           bpf_object__open_file env (filename cfg) k = (ErrPtr err, k1) ->
           r = ([EvOpenFile (filename cfg) (ErrPtr err)], k1,
                Some (EXIT_FAIL_BPF codes)))
    /\ ((forall e, In e (events r) -> ~ step_failed e) ->
        value r = None /\ In (EvSetlocale "LC_NUMERIC" "en_US") (events r)).
Proof.
  intros K env codes cycles fuel cfg verbose k Hfail Hbpf r. subst r.
  unfold main, load_bpf_and_trace_attach, err_exit, find_map_fd.
  unfold bind, call, call_, fprintf, ret. cbv zeta.
  destruct verbose.
  all: destruct (bpf_object__open_file env (filename cfg) k) as [[obj|e0] k1];
    [|failed_leaf]; cbv beta iota.
  all: destruct (bpf_object__load env obj k1) as [e k2]; cbv beta iota.
  all: destruct (e =? 0) eqn:He;
    [apply Z.eqb_eq in He; subst e | apply Z.eqb_neq in He; failed_leaf].
  all: cbv beta iota delta [negb].
  all: destruct (bpf_object__next_program env obj k2) as [[prog|] k3];
    [|failed_leaf]; cbv beta iota.
  all: destruct (bpf_program__attach_tracepoint env prog "xdp" "xdp_exception" k3)
    as [[link|e1] k4]; [|failed_leaf]; cbv beta iota.
  all: destruct (bpf_object__find_map_by_name env obj "xdp_stats_map" k4)
    as [[map|] k5]; [|failed_leaf]; cbv beta iota.
  all: destruct (bpf_map__fd env map k5) as [fd k6]; cbv beta iota.
  all: destruct (fd <? 0) eqn:Hfd;
    [apply Z.ltb_lt in Hfd; failed_leaf|]; cbv beta iota.
  all: destruct (bpf_obj_get_info_by_fd env fd k6) as [[live|errno] k7]
         eqn:Hinfo;
    apply Z.ltb_ge in Hfd;
    [ rewrite (check_map_fd_info_live env codes fd bpf_map_info_zero
                 map_expect k6 live k7 Hfd Hinfo);
      destruct (spec_first_mismatch live map_expect) as [f|] eqn:Hm;
      cbn [fst snd];
      [ destruct (EXIT_FAIL codes =? 0) eqn:Hz;
        [apply Z.eqb_eq in Hz; contradiction|];
        failed_leaf
      | simpl (0 =? 0); cbv beta iota; polling_leaf env ]
    | unfold __check_map_fd_info;
      destruct (fd <? 0) eqn:Hlt; [apply Z.ltb_lt in Hlt; lia|];
      unfold bind, call, fprintf, ret; rewrite Hinfo; cbn [fst snd];
      destruct (EXIT_FAIL_BPF codes =? 0) eqn:Hz;
      [apply Z.eqb_eq in Hz; contradiction|];
      failed_leaf ].
Qed.

(** The table has 8-byte keys: the schema check fails and the status is
    EXIT_FAIL. *)
Example main_schema_mismatch :
  main Sim.env Sim.codes 2 5 {| filename := "trace_prog_kern.o" |} false
    Sim.wide_keys
  = ([EvOpenFile "trace_prog_kern.o" (ValidPtr 100); EvLoad 100 0;
      EvNextProgram 100 (Some 200);
      EvAttachTracepoint 200 "xdp" "xdp_exception" (ValidPtr 300);
      EvFindMapByName 100 "xdp_stats_map" (Some 400); EvMapFd 400 5;
      EvGetInfoByFd 5 (inl Sim.wide_info);
      EvPrintf stderr
        (ln "ERR: %s() Map key size(%d) mismatch expected size(%d)")
        [ArgStr (Some "__check_map_fd_info"); ArgInt 8; ArgInt 4];
      EvPrintf stderr (ln "ERR: map via FD not compatible") []],
     Sim.wide_keys, Some 1).
Proof. reflexivity. Qed.

(** ** filename__read_int *)

Section AtoiFacts.

Import Atoi.


Lemma digits_stops acc tl : stops tl -> digits acc tl = acc.
Proof. destruct tl as [|c r]; simpl; [reflexivity|]. now intros ->. Qed.

Lemma digits_step c v acc r :
  digit_of c = Some v -> digits acc (String c r) = digits (10 * acc + v) r.
Proof. cbn [digits]. now intros ->. Qed.

Lemma digits_uint (d : Decimal.uint) :
  forall acc tl,
    stops tl ->
    digits acc (String.append (DecimalString.NilEmpty.string_of_uint d) tl)
    = uint_val d acc.
Proof.
  induction d; intros acc tl Hs;
    cbn [DecimalString.NilEmpty.string_of_uint String.append uint_val];
    try (erewrite digits_step by reflexivity; rewrite IHd by exact Hs;
         match goal with
         | |- context [Z.of_nat ?n] =>
             let v := eval vm_compute in (Z.of_nat n) in
             change (Z.of_nat n) with v
         end;
         f_equal; lia).
  now apply digits_stops.
Qed.

Lemma uint_val_pos (d : Decimal.uint) :
  forall p, uint_val d (Zpos p) = Zpos (Pos.of_uint_acc d p).
Proof.
  induction d; intros p; cbn [uint_val Pos.of_uint_acc]; try reflexivity;
    rewrite <- IHd; f_equal; lia.
Qed.

Lemma uint_val_0 (d : Decimal.uint) : uint_val d 0 = Z.of_uint d.
Proof.
  unfold Z.of_uint.
  induction d; cbn [uint_val Pos.of_uint Z.of_N]; try reflexivity;
    try exact IHd; rewrite <- uint_val_pos; reflexivity.
Qed.

(** The text of a number, followed by a character that is not a digit,
    reads back as the number when it fits in a [long]. *)
Lemma strtol_dec (v : Z) (tl : string) :
  stops tl ->
  - 2 ^ 63 <= v <= 2 ^ 63 - 1 ->
  strtol (String.append (Fmt.dec v) tl) = v.
Proof.
  intros Hs Hr.
  assert (forall d, digits 0
            (String.append (DecimalString.NilZero.string_of_uint d) tl)
          = Z.of_uint d) as Hd.
  { intros d. rewrite <- uint_val_0.
    destruct d; try (apply digits_uint; exact Hs).
    cbn [DecimalString.NilZero.string_of_uint String.append uint_val].
    erewrite digits_step by reflexivity.
    rewrite digits_stops by exact Hs. reflexivity. }
  assert (forall d, exists c r,
            String.append (DecimalString.NilZero.string_of_uint d) tl
            = String c r
            /\ is_space c = false /\ Ascii.eqb c "-" = false
            /\ Ascii.eqb c "+" = false) as Hh.
  { intros d. destruct d; cbn; eexists; eexists;
      (split; [reflexivity|]); repeat split; reflexivity. }
  pose proof (DecimalZ.of_to v) as Hv.
  unfold strtol, Fmt.dec.
  destruct (Z.to_int v) as [d|d];
    cbn [DecimalString.NilZero.string_of_int String.append Z.of_int] in *.
  - destruct (Hh d) as [c [r [Heq [Hsp [Hm Hp]]]]].
    rewrite Heq. cbn [skip_spaces]. rewrite Hsp, Hm, Hp.
    rewrite <- Heq, Hd. lia.
  - cbn [skip_spaces]. change (is_space "-") with false. cbv iota.
    change (Ascii.eqb "-" "-") with true. cbv iota.
    rewrite Hd. lia.
Qed.


End AtoiFacts.

Lemma to_s32_small (v : Z) : - 2 ^ 31 <= v < 2 ^ 31 -> to_s32 v = v.
Proof.
  intros H. unfold to_s32. cbv zeta.
  destruct (Z_lt_le_dec v 0) as [Hn|Hp].
  - replace (v mod 2 ^ 32) with (v + 2 ^ 32).
    + destruct (v + 2 ^ 32 <? 2 ^ 31) eqn:E; [apply Z.ltb_lt in E|]; lia.
    + apply Z.mod_unique with (q := -1); lia.
  - rewrite Z.mod_small by lia.
    destruct (v <? 2 ^ 31) eqn:E; [reflexivity|apply Z.ltb_ge in E; lia].
Qed.

Lemma string_append_assoc (a b c : string) :
  String.append (String.append a b) c = String.append a (String.append b c).
Proof. induction a as [|ch a IH]; simpl; [reflexivity|now rewrite IH]. Qed.

Section ReadIntFacts.

Context {K : Type}.
Variable io : libc_io K.

(** X17: the descriptor is closed on every path that opened it, once and as the
    last call; when the open fails nothing is read and nothing is
    closed. *)
Theorem filename__read_int_closes_what_it_opens filename value stack k :
  let t := fst (fst (filename__read_int io filename value stack k)) in
  let fd := fst (sys_open io filename O_RDONLY k) in
  closed_fds t = opened_fds t
  /\ if fd <? 0 then t = [IoOpen filename O_RDONLY fd]
     else opened_fds t = [fd]
          /\ exists n data,
              t = [IoOpen filename O_RDONLY fd; IoRead fd 64 n data; IoClose fd].
Proof.
  unfold filename__read_int.
  destruct (sys_open io filename O_RDONLY k) as [fd k1]. cbn [fst].
  destruct (fd <? 0) eqn:Hfd.
  - cbn. rewrite Hfd. split; reflexivity.
  - destruct (sys_read io fd 64 k1) as [[n data] k2]. cbn. rewrite Hfd.
    split; [reflexivity|]. split; [reflexivity|]. eauto.
Qed.

(** X18: the status is 0 or -1; with -1 the caller's value is left as it was;
    the status is 0 exactly when a read returned a positive count. *)
Theorem filename__read_int_status filename value stack k :
  let r := filename__read_int io filename value stack k in
  (fst (snd r) = 0 \/ (fst (snd r) = -1 /\ snd (snd r) = value))
  /\ (fst (snd r) = 0 <->
      exists fd n data, In (IoRead fd 64 n data) (fst (fst r)) /\ 0 < n).
Proof.
  unfold filename__read_int.
  destruct (sys_open io filename O_RDONLY k) as [fd k1].
  destruct (fd <? 0) eqn:Hfd.
  - cbn. split; [right; split; reflexivity|]. split; [discriminate|].
    intros [fd' [n [data [[H|[]] _]]]]. discriminate H.
  - destruct (sys_read io fd 64 k1) as [[n data] k2]. cbn [fst snd].
    destruct (0 <? n) eqn:Hn; cbn [fst snd].
    + apply Z.ltb_lt in Hn. split; [left; reflexivity|].
      split; [|reflexivity]. intros _. exists fd, n, data.
      split; [simpl; tauto|exact Hn].
    + apply Z.ltb_ge in Hn. split; [right; split; reflexivity|].
      split; [discriminate|].
      intros [fd' [n' [data' [Hin Hpos]]]]. simpl in Hin.
      destruct Hin as [H|[H|[H|[]]]]; try discriminate H.
      injection H as _ <- _. lia.
Qed.

(** X19: a file that holds the decimal text of an [int] followed by a character
    that is not a digit (the newline of a sysfs file) reads back as that
    number, whatever the buffer held beyond the bytes read. *)
Theorem filename__read_int_reads_back filename value stack k fd k1 n k2 v c tail :
  sys_open io filename O_RDONLY k = (fd, k1) ->
  0 <= fd ->
  sys_read io fd 64 k1 = (n, String.append (Fmt.dec v) (String c tail), k2) ->
  0 < n ->
  Atoi.digit_of c = None ->
  - 2 ^ 31 <= v < 2 ^ 31 ->
  snd (filename__read_int io filename value stack k) = (0, v).
Proof.
  intros Hopen Hfd Hread Hn Hc Hv. unfold filename__read_int.
  rewrite Hopen.
  destruct (fd <? 0) eqn:E; [apply Z.ltb_lt in E; lia|].
  rewrite Hread. cbn [snd].
  destruct (0 <? n) eqn:E'; [|apply Z.ltb_ge in E'; lia].
  f_equal. unfold Atoi.atoi.
  rewrite string_append_assoc.
  rewrite strtol_dec; [apply to_s32_small; exact Hv | exact Hc | lia].
Qed.

End ReadIntFacts.

(** A file that holds 1500 and a newline. *)
Lemma filename__read_int_status_witness :
  fst (snd (filename__read_int SimIO.env "/sys/x" 7 "garbage" (Some (ln "1500"))))
  = 0
  /\ exists fd n data,
      In (IoRead fd 64 n data)
         (fst (fst (filename__read_int SimIO.env "/sys/x" 7 "garbage"
                      (Some (ln "1500")))))
      /\ 0 < n.
Proof.
  split; [reflexivity|].
  exact (proj1 (proj2 (filename__read_int_status SimIO.env "/sys/x" 7 "garbage"
                         (Some (ln "1500")))) eq_refl).
Defined.

Lemma filename__read_int_reads_back_witness :
  snd (filename__read_int SimIO.env "/sys/x" 7 "99" (Some (ln "1500")))
  = (0, 1500).
Proof.
  refine (filename__read_int_reads_back SimIO.env "/sys/x" 7 "99"
            (Some (ln "1500")) 3 (Some (ln "1500")) 5 (Some (ln "1500"))
            1500 "010"%char EmptyString eq_refl _ eq_refl _ eq_refl _); lia.
Defined.

(** ** find_map_fd and __check_map_fd_info: the other paths *)

Section ResolverFacts.

Context {K : Type}.
Variable env : libbpf K.
Variable codes : exit_codes.

(** X1: [find_map_fd] returns a negative number exactly when the object has no
    map of that name or [bpf_map__fd] itself returns one; it writes a
    diagnostic, naming the map, only in the first case, and then does not
    ask for a descriptor. *)
Theorem find_map_fd_negative bpf_obj mapname k :
  let r := find_map_fd env bpf_obj mapname k in
  exists fd,
    value r = Some fd
    /\ (fd < 0 <->
        In (EvFindMapByName bpf_obj mapname None) (events r)
        \/ exists map, In (EvMapFd map fd) (events r) /\ fd < 0)
    /\ (In (EvFindMapByName bpf_obj mapname None) (events r) ->
        fd = -1
        /\ events r
           = [EvFindMapByName bpf_obj mapname None;
              EvPrintf stderr (ln "ERR: cannot find map by name: %s")
                [ArgStr (Some mapname)]])
    /\ (forall map, In (EvFindMapByName bpf_obj mapname (Some map)) (events r) ->
        events r = [EvFindMapByName bpf_obj mapname (Some map); EvMapFd map fd]).
Proof.
  unfold find_map_fd. run_unfold.
  destruct (bpf_object__find_map_by_name env bpf_obj mapname k) as [[map|] k1];
    simpl.
  - destruct (bpf_map__fd env map k1) as [fd k2]. simpl. exists fd.
    split; [reflexivity|]. split; [|split].
    + split.
      * intros H. right. exists map. tauto.
      * intros [[H|[H|[]]]|[m [_ H]]]; [discriminate H|discriminate H|exact H].
    + intros [H|[H|[]]]; discriminate H.
    + intros m [H|[H|[]]]; [injection H as <-; reflexivity|discriminate H].
  - exists (-1). split; [reflexivity|]. split; [|split].
    + split; [intros _; left; tauto|intros _; lia].
    + intros _. split; reflexivity.
    + intros m [H|[H|[]]]; discriminate H.
Qed.

(** X2: unless the kernel returned the metadata, the validator fails whatever
    the expectation says and leaves the caller's [*info] as it was: with a
    negative descriptor it makes no call and returns EXIT_FAIL, with a
    failed query it returns EXIT_FAIL_BPF after one diagnostic. *)
Theorem check_map_fd_info_no_metadata map_fd info exp k :
  (map_fd < 0 ->
   __check_map_fd_info env codes map_fd info exp k
   = ([], k, Some (EXIT_FAIL codes, info)))
  /\ (forall errno k',
         0 <= map_fd ->
         bpf_obj_get_info_by_fd env map_fd k = (inr errno, k') ->
         __check_map_fd_info env codes map_fd info exp k
         = ([EvGetInfoByFd map_fd (inr errno);
             EvPrintf stderr (ln "ERR: %s() can't get info - %s")
               [ArgStr (Some "__check_map_fd_info");
                ArgStr (Some (strerror env errno))]],
            k', Some (EXIT_FAIL_BPF codes, info))).
Proof.
  unfold __check_map_fd_info. split.
  - intros H. apply Z.ltb_lt in H. now rewrite H.
  - intros errno k' H Hinfo. apply Z.ltb_ge in H. rewrite H.
    run_unfold. now rewrite Hinfo.
Qed.

(** X3: on a live descriptor the validator accepts exactly when every field
    whose expectation is not zero equals the live field. *)
Theorem check_map_fd_info_accepts_iff map_fd info0 exp k live k' :
  EXIT_FAIL codes <> 0 ->
  0 <= map_fd ->
  bpf_obj_get_info_by_fd env map_fd k = (inl live, k') ->
  (value (__check_map_fd_info env codes map_fd info0 exp k) = Some (0, live)
   <-> forall f, field_of f exp = 0 \/ field_of f exp = field_of f live).
Proof.
  intros Hne Hfd Hinfo.
  rewrite (check_map_fd_info_live env codes map_fd info0 exp k live k' Hfd Hinfo).
  destruct (spec_first_mismatch live exp) as [f|] eqn:E; unfold value; simpl.
  - split; [intros H; injection H as H; contradiction|].
    intros H. exfalso. apply find_some in E. destruct E as [_ E].
    unfold mismatches in E. apply andb_true_iff in E. destruct E as [E1 E2].
    apply negb_true_iff in E1, E2. apply Z.eqb_neq in E1, E2.
    destruct (H f); contradiction.
  - split; [|reflexivity]. intros _ f.
    pose proof (find_none _ _ E f) as H.
    assert (In f check_order) as Hin by (destruct f; simpl; tauto).
    specialize (H Hin). unfold mismatches in H.
    apply andb_false_iff in H. destruct H as [H|H];
      apply negb_false_iff in H; apply Z.eqb_eq in H; auto.
Qed.

(** X4: with a single field expected, the validator fails exactly when that
    field differs, and the field it reports is that one. *)
Theorem check_map_fd_info_single_field map_fd info0 exp k live k' f :
  0 <= map_fd ->
  bpf_obj_get_info_by_fd env map_fd k = (inl live, k') ->
  (forall g, g <> f -> field_of g exp = 0) ->
  field_of f exp <> 0 ->
  __check_map_fd_info env codes map_fd info0 exp k =
  if field_of f exp =? field_of f live
  then ([EvGetInfoByFd map_fd (inl live)], k', Some (0, live))
  else ([EvGetInfoByFd map_fd (inl live);
         mismatch_report f (field_of f live) (field_of f exp)],
        k', Some (EXIT_FAIL codes, live)).
Proof.
  intros Hfd Hinfo Hothers Hf.
  rewrite (check_map_fd_info_live env codes map_fd info0 exp k live k' Hfd Hinfo).
  assert (forall g, mismatches live exp g
                    = if field_eq_dec g f
                      then negb (field_of f exp =? field_of f live)
                      else false) as Hm.
  { intros g. unfold mismatches. destruct (field_eq_dec g f) as [->|Hg].
    - apply Z.eqb_neq in Hf. now rewrite Hf.
    - rewrite (Hothers g Hg). reflexivity. }
  unfold spec_first_mismatch, check_order. cbn [find]. rewrite !Hm.
  destruct (field_of f exp =? field_of f live); destruct f; reflexivity.
Qed.

End ResolverFacts.

Lemma find_map_fd_negative_witness :
  exists fd,
    value (find_map_fd Sim.env 100 "xdp_stats_map" Sim2.no_map) = Some fd
    /\ fd = -1.
Proof.
  destruct (find_map_fd_negative Sim.env 100 "xdp_stats_map" Sim2.no_map)
    as [fd [Hv [_ [Hnone _]]]].
  exists fd. split; [exact Hv|].
  exact (proj1 (Hnone (or_introl eq_refl))).
Defined.

Lemma check_map_fd_info_no_metadata_witness :
  __check_map_fd_info Sim.env Sim.codes (-1) bpf_map_info_zero map_expect
    Sim.good
  = ([], Sim.good, Some (1, bpf_map_info_zero))
  /\ __check_map_fd_info Sim.env Sim.codes 5 bpf_map_info_zero map_expect
       Sim2.no_info
     = ([EvGetInfoByFd 5 (inr 9);
         EvPrintf stderr (ln "ERR: %s() can't get info - %s")
           [ArgStr (Some "__check_map_fd_info"); ArgStr (Some "errno 9")]],
        Sim2.no_info, Some (40, bpf_map_info_zero)).
Proof.
  split.
  - apply (proj1 (check_map_fd_info_no_metadata Sim.env Sim.codes (-1)
                    bpf_map_info_zero map_expect Sim.good)). lia.
  - apply (proj2 (check_map_fd_info_no_metadata Sim.env Sim.codes 5
                    bpf_map_info_zero map_expect Sim2.no_info) 9 Sim2.no_info).
    + lia.
    + reflexivity.
Defined.

Lemma check_map_fd_info_accepts_iff_witness :
  value (__check_map_fd_info Sim.env Sim.codes 5 bpf_map_info_zero map_expect
           Sim.good)
  = Some (0, Sim.stats_info).
Proof.
  apply (proj2 (check_map_fd_info_accepts_iff Sim.env Sim.codes 5
                  bpf_map_info_zero map_expect Sim.good Sim.stats_info Sim.good
                  ltac:(simpl; lia) ltac:(lia) eq_refl)).
  intros f. destruct f; simpl; auto.
Defined.

Lemma check_map_fd_info_single_field_witness :
  __check_map_fd_info Sim.env Sim.codes 5 bpf_map_info_zero Sim2.expect_key_8
    Sim.good
  = ([EvGetInfoByFd 5 (inl Sim.stats_info); mismatch_report KeySize 4 8],
     Sim.good, Some (1, Sim.stats_info)).
Proof.
  apply (check_map_fd_info_single_field Sim.env Sim.codes 5 bpf_map_info_zero
           Sim2.expect_key_8 Sim.good Sim.stats_info Sim.good KeySize).
  - lia.
  - reflexivity.
  - intros g Hg. destruct g; try reflexivity. contradiction Hg. reflexivity.
  - simpl. lia.
Defined.

(** ** The aggregator: more on the sum *)

Lemma slot_sum_perm (values values' : list Z) :
  Permutation values values' -> slot_sum values = slot_sum values'.
Proof.
  induction 1; simpl; try lia.
Qed.

(** X5: the total does not depend on the order of the per-CPU slots. *)
Theorem sum_values_permutation (values values' : list Z) :
  Permutation values values' ->
  sum_values (Z.of_nat (List.length values)) values
  = sum_values (Z.of_nat (List.length values')) values'.
Proof.
  intros H. rewrite !sum_values_slot_sum. f_equal. now apply slot_sum_perm.
Qed.

Lemma sum_values_permutation_witness :
  sum_values 3 [10; 20; 7] = sum_values 3 [7; 10; 20].
Proof.
  apply (sum_values_permutation [10; 20; 7] [7; 10; 20]).
  apply perm_trans with (l' := [10; 7; 20]).
  - apply perm_skip. apply perm_swap.
  - apply perm_swap.
Defined.

Lemma slot_sum_nonneg (values : list Z) :
  Forall (fun v => 0 <= v) values -> 0 <= slot_sum values.
Proof. induction 1; simpl; lia. Qed.

(** X6: the total is a 64-bit number whatever was read and however many slots
    are summed; it is the exact sum of the slots when that sum fits in 64
    bits. *)
Theorem sum_values_range_and_exact :
  (forall nr_cpus values, 0 <= sum_values nr_cpus values < 2 ^ 64)
  /\ (forall values,
         Forall (fun v => 0 <= v) values ->
         slot_sum values < 2 ^ 64 ->
         sum_values (Z.of_nat (List.length values)) values = slot_sum values).
Proof.
  split.
  - intros nr_cpus values. unfold sum_values.
    assert (forall l acc,
               0 <= acc < 2 ^ 64 ->
               0 <= fold_left (fun total i => to_u64 (total + nth i values 0))
                      l acc < 2 ^ 64) as H.
    { induction l as [|i l IH]; intros acc Hacc; simpl; [exact Hacc|].
      apply IH. unfold to_u64. apply Z.mod_pos_bound. lia. }
    apply H. lia.
  - intros values Hpos Hfit. rewrite sum_values_slot_sum. unfold to_u64.
    apply Z.mod_small. split; [now apply slot_sum_nonneg|exact Hfit].
Qed.

Lemma sum_values_range_and_exact_witness :
  sum_values 2 [10; 20] = 30.
Proof.
  apply (proj2 sum_values_range_and_exact [10; 20]).
  - repeat constructor; lia.
  - simpl. lia.
Defined.

(** ** The scan: a table at rest, the way out of the loop, the diagnostics *)

Section TableAtRest.

Lemma after_app (pre suf : list (Z * list Z)) key values :
  ~ In key (map fst pre) ->
  Sim.after key (pre ++ (key, values) :: suf) = Some suf.
Proof.
  induction pre as [|[k' v'] pre IH]; simpl; intros Hn.
  - now rewrite Z.eqb_refl.
  - destruct (key =? k') eqn:E; [apply Z.eqb_eq in E; subst; tauto|].
    apply IH. tauto.
Qed.

Lemma assoc_app (pre suf : list (Z * list Z)) key values :
  ~ In key (map fst pre) ->
  Sim.assoc key (pre ++ (key, values) :: suf) = Some values.
Proof.
  induction pre as [|[k' v'] pre IH]; simpl; intros Hn.
  - now rewrite Z.eqb_refl.
  - destruct (key =? k') eqn:E; [apply Z.eqb_eq in E; subst; tauto|].
    apply IH. tauto.
Qed.

Lemma nodup_not_in_prefix (pre suf : list (Z * list Z)) key values :
  NoDup (map fst (pre ++ (key, values) :: suf)) -> ~ In key (map fst pre).
Proof.
  rewrite map_app. simpl. intros H Hin.
  apply NoDup_remove_2 in H. apply H. apply in_or_app. now left.
Qed.


Lemma table_next_at (pre suf : list (Z * list Z)) prev :
  NoDup (map fst (pre ++ suf)) ->
  cursor_at pre prev ->
  table_next (pre ++ suf) prev
  = match suf with
    | [] => inr ENOENT
    | (k, _) :: _ => inl k
    end.
Proof.
  intros Hnd Hc. unfold table_next. destruct prev as [pk|]; simpl in Hc.
  - destruct Hc as [pre' [values ->]].
    rewrite <- app_assoc in *. simpl in *.
    rewrite after_app; [reflexivity|].
    eapply nodup_not_in_prefix. exact Hnd.
  - subst pre. reflexivity.
Qed.

Context {K : Type}.
Variable env : libbpf K.
Variables (map_fd nr_cpus : Z) (t : list (Z * list Z))
          (names : Z -> option string) (k : K).
Hypothesis Hnext :
  forall prev, bpf_map_get_next_key env map_fd prev k = (table_next t prev, k).
Hypothesis Hread :
  forall key, bpf_map_lookup_elem env map_fd key k = (Sim.assoc key t, k).
Hypothesis Hname : forall i, if_indextoname env i k = (names i, k).
Hypothesis Hnodup : NoDup (map fst t).
Hypothesis Hslots : slots_per_entry nr_cpus t.

Lemma scan_loop_at_rest (suf : list (Z * list Z)) :
  forall pre l fuel,
    t = pre ++ suf ->
    cursor_at pre (deref (prev_keyp l) l) ->
    List.length (values l) = Z.to_nat nr_cpus ->
    (List.length suf < fuel)%nat ->
    exists l',
      while_true fuel (scan_body env map_fd nr_cpus) l k
      = (scan_trace map_fd nr_cpus names (deref (prev_keyp l) l) suf, k,
         Some l').
Proof.
  induction suf as [|[key1 slots] suf IH]; intros pre l fuel Ht Hc Hlen Hfuel;
    (destruct fuel as [|fuel]; [simpl in Hfuel; lia|]);
    rewrite while_true_unroll, scan_body_run; cbv zeta;
    rewrite Hnext, Ht, (table_next_at pre _ _ ltac:(rewrite <- Ht; exact Hnodup) Hc).
  - exists l. reflexivity.
  - rewrite Hread, Ht.
    rewrite assoc_app
      by (eapply nodup_not_in_prefix; rewrite <- Ht; exact Hnodup).
    rewrite Hname.
    assert (Z.of_nat (List.length slots) = nr_cpus) as Hn.
    { unfold slots_per_entry in Hslots. rewrite Ht in Hslots.
      apply Forall_app in Hslots. destruct Hslots as [_ Hs].
      apply Forall_inv in Hs. exact Hs. }
    rewrite (copy_out_full slots (values l)) by lia.
    destruct (IH (pre ++ [(key1, slots)])
                {| key := key1; prev_keyp := AddrOfKey; values := slots |}
                fuel) as [l' Hl'].
    + rewrite <- app_assoc. exact Ht.
    + simpl. eauto.
    + cbn [values]. lia.
    + simpl in Hfuel. lia.
    + rewrite Hl'. exists l'. reflexivity.
Qed.

End TableAtRest.

(** X7: on a table at rest, whose keys are distinct, whose reads all
    succeed and whose entries all have one slot for each possible CPU, the
    count of CPUs being a positive [int] for which the stack has room, a
    scan with enough fuel returns; it asks for the CPU count, then, for
    each entry once and in the order of the enumeration, asks for the key,
    reads it, resolves its name and prints its pair, the total being that
    of the entry; it ends with the call that reports exhaustion and the
    newline. *)
Theorem stats_print_table_at_rest :
  forall (K : Type) (env : libbpf K) (map_fd n : Z) (t : list (Z * list Z))
         (names : Z -> option string) (k : K) (fuel : nat),
    libbpf_num_possible_cpus env k = (n, k) ->
    0 < n < 2 ^ 31 ->
    8 * n <= stack_room env k ->
    (forall prev,
        bpf_map_get_next_key env map_fd prev k = (table_next t prev, k)) ->
    (forall key, bpf_map_lookup_elem env map_fd key k = (Sim.assoc key t, k)) ->
    (forall i, if_indextoname env i k = (names i, k)) ->
    NoDup (map fst t) ->
    slots_per_entry n t ->
    (List.length t < fuel)%nat ->
    stats_print env fuel map_fd k
    = (EvNumPossibleCpus n
         :: scan_trace map_fd n names None t ++ [EvPrintf stdout nl []],
       k, Some tt).
Proof.
  intros K env map_fd n t names k fuel Hcpus Hn Hroom Hnext Hread Hname
    Hnodup Hslots Hfuel.
  rewrite stats_print_run, Hcpus.
  assert (to_u32 n = n) as Hu by (unfold to_u32; apply Z.mod_small; lia).
  rewrite Hu.
  destruct (8 * n <=? stack_room env k) eqn:E;
    [|apply Z.leb_gt in E; lia].
  destruct (scan_loop_at_rest env map_fd n t names k Hnext Hread Hname
              Hnodup Hslots t [] (scan_entry 0 (stack_values env n k)) fuel
              eq_refl eq_refl (stack_values_length env n k) Hfuel)
    as [l' Hl'].
  simpl deref in Hl'. rewrite Hl'. reflexivity.
Qed.

(** Keys 1 and 2 on two CPUs. *)
Lemma stats_print_table_at_rest_witness :
  stats_print Sim.env 3 5 Sim.good
  = (EvNumPossibleCpus 2
       :: scan_trace 5 2 (fun i => Sim.assoc i (Sim.w_ifnames Sim.good)) None
            [(1, [10; 20]); (2, [5; 5])]
       ++ [EvPrintf stdout nl []],
     Sim.good, Some tt).
Proof.
  apply (stats_print_table_at_rest Sim.world Sim.env 5 2
           [(1, [10; 20]); (2, [5; 5])]
           (fun i => Sim.assoc i (Sim.w_ifnames Sim.good)) Sim.good 3).
  - reflexivity.
  - lia.
  - simpl. lia.
  - intros prev. reflexivity.
  - intros key. reflexivity.
  - intros i. reflexivity.
  - simpl. repeat constructor; simpl; intuition discriminate.
  - repeat constructor.
  - simpl. lia.
Defined.

Section ScanExit.

Context {K : Type}.
Variable env : libbpf K.

Lemma scan_loop_exit map_fd nr_cpus :
  forall n l k,
    value (while_true n (scan_body env map_fd nr_cpus) l k) <> None ->
    exists t prev errno,
      events (while_true n (scan_body env map_fd nr_cpus) l k)
      = t ++ [EvGetNextKey map_fd prev (inr errno)].
Proof.
  induction n as [|n IH]; intros l k Hret.
  - now contradiction Hret.
  - rewrite while_true_unroll in *. rewrite scan_body_run in *. cbv zeta in *.
    destruct (bpf_map_get_next_key env map_fd (deref (prev_keyp l) l) k)
      as [[key'|e] k1].
    + destruct (bpf_map_lookup_elem env map_fd key' k1) as [[vs|] k2].
      * destruct (if_indextoname env (to_u32 key') k2) as [dev k3].
        specialize (IH {| key := key'; prev_keyp := AddrOfKey;
                         values := copy_out vs (values l) |} k3).
        destruct (while_true n _ _ k3) as [[t2 k4] r].
        unfold events, value in *. simpl in *.
        destruct (IH Hret) as [t [prev [errno ->]]].
        eexists (_ :: _ :: _ :: _ :: t), prev, errno. reflexivity.
      * specialize (IH {| key := key'; prev_keyp := prev_keyp l;
                         values := values l |} k2).
        destruct (while_true n _ _ k2) as [[t2 k4] r].
        unfold events, value in *. simpl in *.
        destruct (IH Hret) as [t [prev [errno ->]]].
        eexists (_ :: _ :: _ :: t), prev, errno. reflexivity.
    + exists [], (deref (prev_keyp l) l), e. reflexivity.
Qed.

Lemma scan_loop_diagnostics map_fd nr_cpus :
  forall n l k,
    filter on_stderr (events (while_true n (scan_body env map_fd nr_cpus) l k))
    = map (fun key => EvPrintf stderr lookup_failed_fmt [ArgInt key])
        (failed_reads
           (events (while_true n (scan_body env map_fd nr_cpus) l k))).
Proof.
  induction n as [|n IH]; intros l k.
  - reflexivity.
  - rewrite while_true_unroll, scan_body_run. cbv zeta.
    destruct (bpf_map_get_next_key env map_fd (deref (prev_keyp l) l) k)
      as [[key'|e] k1]; [|reflexivity].
    destruct (bpf_map_lookup_elem env map_fd key' k1) as [[vs|] k2].
    + destruct (if_indextoname env (to_u32 key') k2) as [dev k3].
      specialize (IH {| key := key'; prev_keyp := AddrOfKey;
                         values := copy_out vs (values l) |} k3).
      destruct (while_true n _ _ k3) as [[t2 k4] r].
      unfold events in *. simpl in *. exact IH.
    + specialize (IH {| key := key'; prev_keyp := prev_keyp l;
                         values := values l |} k2).
      destruct (while_true n _ _ k2) as [[t2 k4] r].
      unfold events in *. simpl in *. now rewrite IH.
Qed.

End ScanExit.

(** X8: the only way out of the enumeration is a failed call for the next
    key: a scan that returns ends with such a call, whatever its error
    number, followed by the newline; an error other than exhaustion is not
    told apart and is not reported. *)
Theorem stats_print_returns_after_next_key_failure :
  forall (K : Type) (env : libbpf K) (fuel : nat) (map_fd : Z) (k : K),
    value (stats_print env fuel map_fd k) = Some tt ->
    exists t prev errno,
      events (stats_print env fuel map_fd k)
      = t ++ [EvGetNextKey map_fd prev (inr errno); EvPrintf stdout nl []].
Proof.
  intros K env fuel map_fd k. rewrite stats_print_run.
  destruct (libbpf_num_possible_cpus env k) as [n k1].
  destruct (8 * to_u32 n <=? stack_room env k1);
    [|intros Hret; discriminate Hret].
  pose proof (scan_loop_exit env map_fd (to_u32 n) fuel
                (scan_entry 0 (stack_values env (to_u32 n) k1)) k1) as H.
  destruct (while_true fuel _ _ k1) as [[t k2] [l|]];
    unfold events, value in *; simpl in *; intros Hret; [|discriminate Hret].
  destruct H as [t' [prev [errno ->]]]; [discriminate|].
  exists (EvNumPossibleCpus n :: t'), prev, errno.
  simpl. now rewrite <- app_assoc.
Qed.

Lemma stats_print_returns_after_next_key_failure_witness :
  exists t prev errno,
    events (stats_print Sim.env 5 5 Sim.good)
    = t ++ [EvGetNextKey 5 prev (inr errno); EvPrintf stdout nl []].
Proof.
  exact (stats_print_returns_after_next_key_failure Sim.world Sim.env 5 5
           Sim.good eq_refl).
Defined.

(** X9: what a scan writes to the error stream is one diagnostic for each
    read that failed, in the order of the failures and with the key of
    the failed read, and nothing else. *)
Theorem stats_print_reports_each_failed_read :
  forall (K : Type) (env : libbpf K) (fuel : nat) (map_fd : Z) (k : K),
    filter on_stderr (events (stats_print env fuel map_fd k))
    = map (fun key => EvPrintf stderr lookup_failed_fmt [ArgInt key])
        (failed_reads (events (stats_print env fuel map_fd k))).
Proof.
  intros K env fuel map_fd k. rewrite stats_print_run.
  destruct (libbpf_num_possible_cpus env k) as [n k1].
  destruct (8 * to_u32 n <=? stack_room env k1); [|reflexivity].
  pose proof (scan_loop_diagnostics env map_fd (to_u32 n) fuel
                (scan_entry 0 (stack_values env (to_u32 n) k1)) k1)
    as H.
  destruct (while_true fuel _ _ k1) as [[t k2] [l|]];
    unfold events in *; simpl in *; [|exact H].
  unfold failed_reads in *. rewrite filter_app, flat_map_app, H. simpl.
  now rewrite !app_nil_r.
Qed.

(** X10: a scan that returns, and whose reads each wrote one slot for
    each slot of the array (as the reads of a per-CPU table do), writes to
    the output one pair for each read that succeeded, in the order of the
    reads, each followed by a space, then the newline; the name is the one
    the index resolved to and the total, that of the slots read, is in
    plain decimal digits, in every locale. *)
Theorem stats_print_line_of_reads :
  forall (K : Type) (env : libbpf K) (sep : string) (fuel : nat)
         (map_fd : Z) (k : K),
    value (stats_print env fuel map_fd k) = Some tt ->
    Forall fills_buffer (events (stats_print env fuel map_fd k)) ->
    output sep stdout (events (stats_print env fuel map_fd k))
    = String.append
        (String.concat ""
           (map render_pair (reads (events (stats_print env fuel map_fd k)))))
        nl.
Proof.
  intros K env sep fuel map_fd k H Hfull. now apply stats_print_line.
Qed.

Lemma stats_print_line_of_reads_witness :
  output "," stdout (events (stats_print Sim.env 5 5 Sim.second_fails_once))
  = ln "lo (30) ".
Proof.
  apply (stats_print_line_of_reads Sim.world Sim.env "," 5 5
           Sim.second_fails_once eq_refl).
  unfold events. simpl.
  repeat (constructor; [simpl; trivial|]). constructor.
Defined.

(** X11: once a read has succeeded, a read that fails is passed over: the
    diagnostic is written and the next call for a key is made from the key
    whose read failed. *)
Theorem scan_passes_over_failed_read :
  forall (K : Type) (env : libbpf K) (map_fd nr_cpus : Z) (n : nat)
         (l : scan_locals) (k k1 k2 : K) (key1 : Z),
    prev_keyp l = AddrOfKey ->
    bpf_map_get_next_key env map_fd (Some (key l)) k = (inl key1, k1) ->
    bpf_map_lookup_elem env map_fd key1 k1 = (None, k2) ->
    exists t,
      events (while_true (S (S n)) (scan_body env map_fd nr_cpus) l k)
      = [EvGetNextKey map_fd (Some (key l)) (inl key1);
         EvLookupElem map_fd key1 nr_cpus None;
         EvPrintf stderr lookup_failed_fmt [ArgInt key1];
         EvGetNextKey map_fd (Some key1)
           (fst (bpf_map_get_next_key env map_fd (Some key1) k2))] ++ t.
Proof.
  intros K env map_fd nr_cpus n l k k1 k2 key1 Hp Hnext Hread.
  now apply scan_loop_skips_after_success with (k1 := k1).
Qed.

(** The read of key 2 fails after key 1 was read. *)
Lemma scan_passes_over_failed_read_witness :
  exists t,
    events (while_true 2 (scan_body Sim.env 5 2)
              {| key := 1; prev_keyp := AddrOfKey; values := [10; 20] |}
              Sim.second_fails_once)
    = [EvGetNextKey 5 (Some 1) (inl 2); EvLookupElem 5 2 2 None;
       EvPrintf stderr lookup_failed_fmt [ArgInt 2];
       EvGetNextKey 5 (Some 2) (inr ENOENT)] ++ t.
Proof.
  exact (scan_passes_over_failed_read Sim.world Sim.env 5 2 0
           {| key := 1; prev_keyp := AddrOfKey; values := [10; 20] |}
           Sim.second_fails_once Sim.second_fails_once
           (Sim.with_failing Sim.second_fails_once [(2, 0%nat)])
           2 eq_refl eq_refl eq_refl).
Defined.

(** X12: the local [key] is not initialised, and what it holds on entry
    changes nothing: whatever the array holds, the calls made and the
    world left are the same for any two initial values of [key]. *)
Theorem scan_ignores_initial_key :
  forall (K : Type) (env : libbpf K) (map_fd nr_cpus : Z) (n : nat)
         (key0 key1 : Z) (values0 : list Z) (k : K),
    events (while_true n (scan_body env map_fd nr_cpus)
              (scan_entry key0 values0) k)
    = events (while_true n (scan_body env map_fd nr_cpus)
                (scan_entry key1 values0) k)
    /\ world (while_true n (scan_body env map_fd nr_cpus)
                (scan_entry key0 values0) k)
       = world (while_true n (scan_body env map_fd nr_cpus)
                  (scan_entry key1 values0) k).
Proof.
  intros K env map_fd nr_cpus n key0 key1 values0 k.
  apply scan_entry_key_irrelevant.
Qed.

(** ** The poller as [main] runs it *)

Section PollerFacts.

Context {K : Type}.
Variable env : libbpf K.

Lemma scan_body_poller map_fd interval nr_cpus l k :
  Forall (poller_event map_fd interval)
    (events (scan_body env map_fd nr_cpus l k)).
Proof.
  rewrite scan_body_run. cbv zeta.
  destruct (bpf_map_get_next_key env map_fd (deref (prev_keyp l) l) k)
    as [[key'|e] k1].
  - destruct (bpf_map_lookup_elem env map_fd key' k1) as [[vs|] k2].
    + destruct (if_indextoname env (to_u32 key') k2) as [dev k3].
      unfold events. simpl. repeat constructor.
    + unfold events. simpl. repeat constructor.
  - unfold events. simpl. repeat constructor.
Qed.

Lemma stats_print_poller fuel map_fd interval k :
  Forall (poller_event map_fd interval) (events (stats_print env fuel map_fd k)).
Proof.
  rewrite stats_print_run.
  destruct (libbpf_num_possible_cpus env k) as [n k1].
  destruct (8 * to_u32 n <=? stack_room env k1);
    [|repeat constructor].
  pose proof (while_true_events (poller_event map_fd interval)
                (scan_body env map_fd (to_u32 n))
                (scan_body_poller map_fd interval (to_u32 n))
                fuel (scan_entry 0 (stack_values env (to_u32 n) k1)) k1) as H.
  destruct (while_true fuel _ _ k1) as [[t k2] [l|]];
    unfold events in *; simpl in *.
  - constructor; [exact I|]. apply Forall_app. split; [exact H|].
    constructor; [|constructor]. simpl. now right.
  - constructor; [exact I|exact H].
Qed.

(** The poller makes no other calls than its own, on its table and with
    its interval, and does not return. *)
Lemma stats_poll_poller cycles fuel map_fd map_type interval k :
  Forall (poller_event map_fd interval)
    (events (stats_poll env cycles fuel map_fd map_type interval k))
  /\ value (stats_poll env cycles fuel map_fd map_type interval k) = None.
Proof.
  unfold stats_poll. rewrite events_bind, value_bind. simpl. split.
  - constructor; [split; reflexivity|].
    apply while_true_events. intros [] k0.
    rewrite poll_body_run, cycle_run.
    pose proof (stats_print_poller fuel map_fd interval k0) as Hp.
    destruct (stats_print env fuel map_fd k0) as [[t1 k1] [u|]];
      unfold events in *; simpl in *; [|exact Hp].
    apply Forall_app. split; [exact Hp|]. repeat constructor.
  - apply poll_loop_never_returns.
Qed.

Lemma poller_not_closed map_fd interval t :
  Forall (poller_event map_fd interval) t -> closed_objects t = [].
Proof.
  induction 1 as [|e t He _ IH]; [reflexivity|].
  destruct e; simpl in *; try contradiction; exact IH.
Qed.

Lemma poller_not_banner map_fd interval t :
  Forall (poller_event map_fd interval) t ->
  filter (fun e => negb (is_banner e)) t = t.
Proof.
  induction 1 as [|e t He _ IH]; [reflexivity|].
  destruct e; simpl in *; try contradiction; try (now rewrite IH).
  destruct out; [|now rewrite IH].
  destruct He as [->| ->]; cbn; now rewrite IH.
Qed.

End PollerFacts.

(** ** main: what it never does *)

(** The paths of [main], one goal for each: [leaf] is run on the paths that
    return, [poll] on those that reach the poller. *)
Ltac main_paths env codes cfg k leaf poll :=
  unfold main, load_bpf_and_trace_attach, err_exit, find_map_fd;
  unfold bind, call, call_, fprintf, ret; cbv zeta;
  destruct (bpf_object__open_file env (filename cfg) k) as [[obj|e0] k1];
    [|leaf]; cbv beta iota;
  destruct (bpf_object__load env obj k1) as [e k2]; cbv beta iota;
  destruct (e =? 0) eqn:He;
    [apply Z.eqb_eq in He; subst e | apply Z.eqb_neq in He; leaf];
  cbv beta iota delta [negb];
  destruct (bpf_object__next_program env obj k2) as [[prog|] k3];
    [|leaf]; cbv beta iota;
  destruct (bpf_program__attach_tracepoint env prog "xdp" "xdp_exception" k3)
    as [[link|e1] k4]; [|leaf]; cbv beta iota;
  destruct (bpf_object__find_map_by_name env obj "xdp_stats_map" k4)
    as [[map|] k5]; [|leaf]; cbv beta iota;
  destruct (bpf_map__fd env map k5) as [fd k6]; cbv beta iota;
  destruct (fd <? 0) eqn:Hfd; [apply Z.ltb_lt in Hfd; leaf|]; cbv beta iota;
  destruct (bpf_obj_get_info_by_fd env fd k6) as [[live|errno] k7] eqn:Hinfo;
  apply Z.ltb_ge in Hfd;
  [ rewrite (check_map_fd_info_live env codes fd bpf_map_info_zero
               map_expect k6 live k7 Hfd Hinfo);
    destruct (spec_first_mismatch live map_expect) as [f|] eqn:Hm;
    cbn [fst snd];
    [ destruct (EXIT_FAIL codes =? 0) eqn:Hz; cbv beta iota; [poll|leaf]
    | simpl (0 =? 0); cbv beta iota; poll ]
  | unfold __check_map_fd_info;
    destruct (fd <? 0) eqn:Hlt; [apply Z.ltb_lt in Hlt; lia|];
    unfold bind, call, fprintf, ret; rewrite Hinfo; cbn [fst snd];
    destruct (EXIT_FAIL_BPF codes =? 0) eqn:Hz; cbv beta iota; [poll|leaf] ].

(** Replaces the run of the poller by its trace [tp], all of whose events
    are the poller's ([Hall]). *)
Ltac poller_trace env :=
  match goal with
  | |- context [stats_poll env ?c ?f ?fd ?ty ?iv ?k0] =>
      let Hall := fresh "Hall" in
      let Hval := fresh "Hval" in
      destruct (stats_poll_poller env c f fd ty iv k0) as [Hall Hval];
      destruct (stats_poll env c f fd ty iv k0) as [[tp kp] rp];
      unfold events, value in Hall, Hval; simpl in Hall, Hval; subst rp
  end.

(** X13: [main] returns EXIT_FAIL or EXIT_FAIL_BPF or does not return:
    the [return EXIT_OK] that ends it is never reached. *)
Theorem main_returns_only_failures :
  forall (K : Type) (env : libbpf K) (codes : exit_codes)
         (cycles fuel : nat) (cfg : config) (verbose : bool) (k : K),
    let r := main env codes cycles fuel cfg verbose k in
    value r = None
    \/ value r = Some (EXIT_FAIL codes)
    \/ value r = Some (EXIT_FAIL_BPF codes).
Proof.
  intros K env codes cycles fuel cfg verbose k r. subst r.
  destruct verbose;
    main_paths env codes cfg k
      ltac:(unfold value; simpl; auto)
      ltac:(poller_trace env; unfold value; simpl; auto).
Qed.

(** X14: [main] itself never releases the object.  When the loader fails,
    [main] makes no call of its own and returns EXIT_FAIL_BPF; when the
    loader returns the object, no path of [main] closes it, also those that
    end on a missing table or a schema mismatch. *)
Theorem main_never_closes_loaded_object :
  forall (K : Type) (env : libbpf K) (codes : exit_codes)
         (cycles fuel : nat) (cfg : config) (verbose : bool) (k : K),
    match value (load_bpf_and_trace_attach env cfg k) with
    | Some (Some _) =>
        closed_objects (events (main env codes cycles fuel cfg verbose k)) = []
    | _ =>
        main env codes cycles fuel cfg verbose k
        = (events (load_bpf_and_trace_attach env cfg k),
           world (load_bpf_and_trace_attach env cfg k),
           Some (EXIT_FAIL_BPF codes))
    end.
Proof.
  intros K env codes cycles fuel cfg verbose k.
  destruct verbose;
    main_paths env codes cfg k
      ltac:(unfold events, value, world; simpl; reflexivity)
      ltac:(poller_trace env; unfold events, value; simpl;
            rewrite ?app_nil_r;
            apply (poller_not_closed _ _ _ Hall)).
Qed.

(** X15: the verbosity changes nothing but the three banner lines: the
    run with [verbose] set, the banners left out, is the quiet run, call
    for call and diagnostic for diagnostic, with the same exit status and
    the same world. *)
Theorem main_verbose_adds_only_banners :
  forall (K : Type) (env : libbpf K) (codes : exit_codes)
         (cycles fuel : nat) (cfg : config) (k : K),
    filter (fun e => negb (is_banner e))
      (events (main env codes cycles fuel cfg true k))
    = events (main env codes cycles fuel cfg false k)
    /\ value (main env codes cycles fuel cfg true k)
       = value (main env codes cycles fuel cfg false k)
    /\ world (main env codes cycles fuel cfg true k)
       = world (main env codes cycles fuel cfg false k).
Proof.
  intros K env codes cycles fuel cfg k.
  main_paths env codes cfg k
    ltac:(unfold events, value, world; simpl; auto)
    ltac:(poller_trace env; unfold events, value, world; simpl;
          change (fun e : event => if is_banner e then false else true)
            with (fun e : event => negb (is_banner e));
          rewrite ?app_nil_r, ?(poller_not_banner _ _ _ Hall); auto).
Qed.

Lemma map_expect_met (live : bpf_map_info) :
  spec_first_mismatch live map_expect = None ->
  key_size live = 4 /\ value_size live = 8.
Proof.
  intros H. pose proof (find_none _ _ H) as Hn.
  assert (mismatches live map_expect KeySize = false) as Hk
    by (apply Hn; simpl; tauto).
  assert (mismatches live map_expect ValueSize = false) as Hv
    by (apply Hn; simpl; tauto).
  unfold mismatches in Hk, Hv.
  cbn [field_of map_expect key_size value_size] in Hk, Hv.
  change (4 =? 0) with false in Hk. change (8 =? 0) with false in Hv.
  cbn [negb andb] in Hk, Hv.
  apply negb_false_iff, Z.eqb_eq in Hk. apply negb_false_iff, Z.eqb_eq in Hv.
  auto.
Qed.


Lemma poller_on_resolved_table fd t :
  Forall (poller_event fd 2) t -> Forall (on_resolved_table fd) t.
Proof.
  apply Forall_impl. intros e He.
  destruct e; simpl in *; try exact I; try exact He; contradiction.
Qed.

(** X16: the poller only ever runs on a table that passed the check: when
    polling begins, the kernel has described the descriptor that
    [bpf_map__fd] returned, which is not negative, as a table with 4-byte
    keys and 8-byte values, and every call of the poller on a table is
    made on that descriptor, with sleeps of 2 seconds. *)
Theorem main_polls_checked_table :
  forall (K : Type) (env : libbpf K) (codes : exit_codes)
         (cycles fuel : nat) (cfg : config) (verbose : bool) (k : K),
    EXIT_FAIL codes <> 0 ->
    EXIT_FAIL_BPF codes <> 0 ->
    let r := main env codes cycles fuel cfg verbose k in
    In (EvSetlocale "LC_NUMERIC" "en_US") (events r) ->
    exists map fd live,
      In (EvMapFd map fd) (events r)
      /\ In (EvGetInfoByFd fd (inl live)) (events r)
      /\ 0 <= fd /\ key_size live = 4 /\ value_size live = 8
      /\ Forall (on_resolved_table fd) (events r).
Proof.
  intros K env codes cycles fuel cfg verbose k Hfail Hbpf r. subst r.
  destruct verbose;
    main_paths env codes cfg k
      ltac:(unfold events; simpl; unfold mismatch_report;
            let Hin := fresh "Hin" in
            intros Hin; exfalso;
            repeat (destruct Hin as [Hin|Hin]; [discriminate Hin|]);
            exact Hin)
      ltac:(first
              [ apply Z.eqb_eq in Hz; contradiction
              | poller_trace env; unfold events; simpl; rewrite ?app_nil_r;
                intros _;
                destruct (map_expect_met live Hm) as [Hk Hv];
                exists map, fd, live;
                split; [tauto|]; split; [tauto|];
                split; [exact Hfd|]; split; [exact Hk|]; split; [exact Hv|];
                repeat (constructor; [simpl; trivial|]);
                apply (poller_on_resolved_table _ _ Hall) ]).
Qed.

(** Everything loads and the table has the expected shape. *)
Lemma main_polls_checked_table_witness :
  exists map fd live,
    In (EvMapFd map fd)
       (events (main Sim.env Sim.codes 1 5 {| filename := "trace_prog_kern.o" |}
                  false Sim.good))
    /\ In (EvGetInfoByFd fd (inl live))
          (events (main Sim.env Sim.codes 1 5
                     {| filename := "trace_prog_kern.o" |} false Sim.good))
    /\ 0 <= fd /\ key_size live = 4 /\ value_size live = 8
    /\ Forall (on_resolved_table fd)
          (events (main Sim.env Sim.codes 1 5
                     {| filename := "trace_prog_kern.o" |} false Sim.good)).
Proof.
  apply (main_polls_checked_table Sim.world Sim.env Sim.codes 1 5
           {| filename := "trace_prog_kern.o" |} false Sim.good).
  - simpl. lia.
  - simpl. lia.
  - unfold events. simpl. in_any.
Defined.

(** ** main: each fatal error ends the run *)

Section MainSteps.

Context {K : Type}.
Variable env : libbpf K.
Variable codes : exit_codes.
Variables (cycles fuel : nat) (cfg : config) (verbose : bool) (k : K).
Hypothesis Hfail : EXIT_FAIL codes <> 0.
Hypothesis Hbpf : EXIT_FAIL_BPF codes <> 0.

Ltac main_unfold :=
  unfold main, load_bpf_and_trace_attach, err_exit, find_map_fd;
  unfold bind, call, call_, fprintf, ret; cbv zeta.

Ltac main_step H := rewrite H; cbv beta iota delta [negb].

Lemma main_open_fails err k1 :
  bpf_object__open_file env (filename cfg) k = (ErrPtr err, k1) ->
  main env codes cycles fuel cfg verbose k
  = ([EvOpenFile (filename cfg) (ErrPtr err)], k1, Some (EXIT_FAIL_BPF codes)).
Proof. intros H. main_unfold. main_step H. reflexivity. Qed.

Lemma main_load_fails obj k1 e k2 :
  opened env cfg k obj k1 ->
  bpf_object__load env obj k1 = (e, k2) ->
  e <> 0 ->
  main env codes cycles fuel cfg verbose k
  = ([EvOpenFile (filename cfg) (ValidPtr obj); EvLoad obj e;
      load_failed_report (strerror env) cfg e; EvClose obj],
     bpf_object__close env obj k2, Some (EXIT_FAIL_BPF codes)).
Proof.
  intros Ho Hl He. main_unfold. main_step Ho. main_step Hl.
  apply Z.eqb_neq in He. rewrite He. reflexivity.
Qed.

Lemma main_no_program obj k2 k3 :
  loaded env cfg k obj k2 ->
  bpf_object__next_program env obj k2 = (None, k3) ->
  main env codes cycles fuel cfg verbose k
  = ([EvOpenFile (filename cfg) (ValidPtr obj); EvLoad obj 0;
      EvNextProgram obj None; no_program_report (strerror env) cfg;
      EvClose obj],
     bpf_object__close env obj k3, Some (EXIT_FAIL_BPF codes)).
Proof.
  intros [k1 [Ho Hl]] Hp. main_unfold. main_step Ho. main_step Hl.
  change (0 =? 0) with true. cbv beta iota delta [negb]. main_step Hp. reflexivity.
Qed.

Lemma main_attach_fails obj prog k3 e k4 :
  selected env cfg k obj prog k3 ->
  bpf_program__attach_tracepoint env prog "xdp" "xdp_exception" k3
  = (ErrPtr e, k4) ->
  main env codes cycles fuel cfg verbose k
  = ([EvOpenFile (filename cfg) (ValidPtr obj); EvLoad obj 0;
      EvNextProgram obj (Some prog);
      EvAttachTracepoint prog "xdp" "xdp_exception" (ErrPtr e);
      attach_failed_report; EvClose obj],
     bpf_object__close env obj k4, Some (EXIT_FAIL_BPF codes)).
Proof.
  intros [k2 [[k1 [Ho Hl]] Hp]] Ha. main_unfold. main_step Ho. main_step Hl.
  change (0 =? 0) with true. cbv beta iota delta [negb]. main_step Hp. main_step Ha.
  reflexivity.
Qed.

Ltac main_to_attached Ha :=
  destruct Ha as [k3 [[k2 [[k1 [Ho Hl]] Hp]] Hat]];
  main_unfold; main_step Ho; main_step Hl;
  change (0 =? 0) with true; cbv beta iota delta [negb];
  main_step Hp; main_step Hat.

Lemma main_no_map obj prog link k4 k5 :
  attached env cfg k obj prog link k4 ->
  bpf_object__find_map_by_name env obj "xdp_stats_map" k4 = (None, k5) ->
  main env codes cycles fuel cfg verbose k
  = (attach_trace cfg obj prog link ++ loaded_banner verbose cfg
       ++ [EvFindMapByName obj "xdp_stats_map" None; no_map_report],
     k5, Some (EXIT_FAIL_BPF codes)).
Proof.
  intros Ha Hm. main_to_attached Ha.
  destruct verbose; cbv beta iota; main_step Hm; reflexivity.
Qed.

Lemma main_negative_descriptor obj prog link k4 map k5 fd k6 :
  attached env cfg k obj prog link k4 ->
  bpf_object__find_map_by_name env obj "xdp_stats_map" k4 = (Some map, k5) ->
  bpf_map__fd env map k5 = (fd, k6) ->
  fd < 0 ->
  main env codes cycles fuel cfg verbose k
  = (attach_trace cfg obj prog link ++ loaded_banner verbose cfg
       ++ resolve_trace obj map fd,
     k6, Some (EXIT_FAIL_BPF codes)).
Proof.
  intros Ha Hm Hfd Hneg. main_to_attached Ha. apply Z.ltb_lt in Hneg.
  destruct verbose; cbv beta iota; main_step Hm; main_step Hfd;
    rewrite Hneg; reflexivity.
Qed.

Ltac main_to_resolved Hr fd :=
  destruct Hr as [k4 [k5 [Ha [Hm [Hfd Hpos]]]]];
  main_to_attached Ha;
  assert (Z.ltb fd 0 = false) as Hge by (apply Z.ltb_ge; exact Hpos).

Lemma main_no_info obj prog link map fd k6 errno k7 :
  resolved env cfg k obj prog link map fd k6 ->
  bpf_obj_get_info_by_fd env fd k6 = (inr errno, k7) ->
  main env codes cycles fuel cfg verbose k
  = (attach_trace cfg obj prog link ++ loaded_banner verbose cfg
       ++ resolve_trace obj map fd
       ++ [EvGetInfoByFd fd (inr errno); no_info_report (strerror env) errno;
           not_compatible_report],
     k7, Some (EXIT_FAIL_BPF codes)).
Proof.
  intros Hr Hi. main_to_resolved Hr fd.
  apply Z.eqb_neq in Hbpf.
  destruct verbose; cbv beta iota; main_step Hm; main_step Hfd;
    rewrite Hge; cbv iota;
    unfold __check_map_fd_info; rewrite Hge;
    unfold bind, call, fprintf, ret; main_step Hi; cbn [fst snd];
    rewrite Hbpf; reflexivity.
Qed.

Lemma main_schema_mismatches obj prog link map fd k6 live k7 f :
  resolved env cfg k obj prog link map fd k6 ->
  bpf_obj_get_info_by_fd env fd k6 = (inl live, k7) ->
  spec_first_mismatch live map_expect = Some f ->
  main env codes cycles fuel cfg verbose k
  = (attach_trace cfg obj prog link ++ loaded_banner verbose cfg
       ++ resolve_trace obj map fd
       ++ [EvGetInfoByFd fd (inl live);
           mismatch_report f (field_of f live) (field_of f map_expect);
           not_compatible_report],
     k7, Some (EXIT_FAIL codes)).
Proof.
  intros Hr Hi Hmis. main_to_resolved Hr fd.
  apply Z.eqb_neq in Hfail.
  destruct verbose; cbv beta iota; main_step Hm; main_step Hfd;
    rewrite Hge; cbv iota;
    rewrite (check_map_fd_info_live env codes fd bpf_map_info_zero
               map_expect k6 live k7 Hpos Hi), Hmis;
    cbn [fst snd]; rewrite Hfail; reflexivity.
Qed.

(** With every step a success, polling begins. *)
Lemma main_polls obj prog link map fd k6 live k7 :
  resolved env cfg k obj prog link map fd k6 ->
  bpf_obj_get_info_by_fd env fd k6 = (inl live, k7) ->
  spec_first_mismatch live map_expect = None ->
  events (main env codes cycles fuel cfg verbose k)
  = attach_trace cfg obj prog link ++ loaded_banner verbose cfg
      ++ resolve_trace obj map fd
      ++ [EvGetInfoByFd fd (inl live)] ++ polling_banner verbose live
      ++ events (stats_poll env cycles fuel fd (type live) 2 k7)
  /\ value (main env codes cycles fuel cfg verbose k) = None.
Proof.
  intros Hr Hi Hmis. main_to_resolved Hr fd.
  destruct verbose; cbv beta iota; main_step Hm; main_step Hfd;
    rewrite Hge; cbv iota;
    rewrite (check_map_fd_info_live env codes fd bpf_map_info_zero
               map_expect k6 live k7 Hpos Hi), Hmis;
    cbn [fst snd]; change (0 =? 0) with true; cbv beta iota delta [negb];
    pose proof (poll_loop_never_returns env cycles fuel fd 2
                  (setlocale env "LC_NUMERIC" "en_US" k7)) as Hnone;
    unfold stats_poll, bind, call_;
    destruct (while_true cycles _ tt _) as [[tp kp] rp];
    unfold value in Hnone; cbn [snd] in Hnone; subst rp;
    unfold events, value; cbn [fst snd app]; rewrite ?app_nil_r;
    split; reflexivity.
Qed.

(** Polling begins only when every step succeeded. *)
Lemma main_polling_requires_success :
  In (EvSetlocale "LC_NUMERIC" "en_US")
     (events (main env codes cycles fuel cfg verbose k)) ->
  exists obj prog link map fd k6 live k7,
    resolved env cfg k obj prog link map fd k6
    /\ bpf_obj_get_info_by_fd env fd k6 = (inl live, k7)
    /\ spec_first_mismatch live map_expect = None.
Proof.
  assert (forall t k' r,
             main env codes cycles fuel cfg verbose k = (t, k', r) ->
             ~ In (EvSetlocale "LC_NUMERIC" "en_US") t ->
             In (EvSetlocale "LC_NUMERIC" "en_US")
                (events (main env codes cycles fuel cfg verbose k)) ->
             exists obj prog link map fd k6 live k7,
               resolved env cfg k obj prog link map fd k6
               /\ bpf_obj_get_info_by_fd env fd k6 = (inl live, k7)
               /\ spec_first_mismatch live map_expect = None) as Hno.
  { intros t k' r -> Hn Hin. contradiction. }
  destruct (bpf_object__open_file env (filename cfg) k) as [[obj|e0] k1]
    eqn:Hopen.
  2: { apply (Hno _ _ _ (main_open_fails e0 k1 Hopen)).
       simpl. intros [H|[]]. discriminate H. }
  destruct (bpf_object__load env obj k1) as [e k2] eqn:Hload.
  destruct (Z.eq_dec e 0) as [->|He].
  2: { apply (Hno _ _ _ (main_load_fails obj k1 e k2 Hopen Hload He)).
       simpl. intros [H|[H|[H|[H|[]]]]]; discriminate H. }
  assert (loaded env cfg k obj k2) as Hloaded by (exists k1; split; assumption).
  destruct (bpf_object__next_program env obj k2) as [[prog|] k3] eqn:Hprog.
  2: { apply (Hno _ _ _ (main_no_program obj k2 k3 Hloaded Hprog)).
       simpl. intros [H|[H|[H|[H|[H|[]]]]]]; discriminate H. }
  assert (selected env cfg k obj prog k3) as Hsel
      by (exists k2; split; assumption).
  destruct (bpf_program__attach_tracepoint env prog "xdp" "xdp_exception" k3)
    as [[link|e1] k4] eqn:Hatt.
  2: { apply (Hno _ _ _ (main_attach_fails obj prog k3 e1 k4 Hsel Hatt)).
       simpl. intros [H|[H|[H|[H|[H|[H|[]]]]]]]; discriminate H. }
  assert (attached env cfg k obj prog link k4) as Hattd
      by (exists k3; split; assumption).
  destruct (bpf_object__find_map_by_name env obj "xdp_stats_map" k4)
    as [[map|] k5] eqn:Hmap.
  2: { apply (Hno _ _ _ (main_no_map obj prog link k4 k5 Hattd Hmap)).
       destruct verbose; simpl;
         intros H; repeat (destruct H as [H|H]; [discriminate H|]);
         exact H. }
  destruct (bpf_map__fd env map k5) as [fd k6] eqn:Hfd.
  destruct (Z.lt_ge_cases fd 0) as [Hneg|Hpos].
  { apply (Hno _ _ _ (main_negative_descriptor obj prog link k4 map k5 fd k6
                        Hattd Hmap Hfd Hneg)).
    destruct verbose; simpl;
      intros H; repeat (destruct H as [H|H]; [discriminate H|]);
      exact H. }
  assert (resolved env cfg k obj prog link map fd k6) as Hres
      by (exists k4, k5; auto).
  destruct (bpf_obj_get_info_by_fd env fd k6) as [[live|errno] k7] eqn:Hinfo.
  2: { apply (Hno _ _ _ (main_no_info obj prog link map fd k6 errno k7
                           Hres Hinfo)).
       destruct verbose; simpl;
         intros H; repeat (destruct H as [H|H]; [discriminate H|]);
         exact H. }
  destruct (spec_first_mismatch live map_expect) as [f|] eqn:Hmis.
  { apply (Hno _ _ _ (main_schema_mismatches obj prog link map fd k6 live k7 f
                        Hres Hinfo Hmis)).
    destruct verbose; simpl;
      intros H; repeat (destruct H as [H|H]; [discriminate H|]);
      exact H. }
  intros _. exists obj, prog, link, map, fd, k6, live, k7. auto.
Qed.

End MainSteps.
(** C7: every fatal error of the pipeline before polling makes [main]
    return at once, before polling begins, with a failure status.  For
    each step (open, load, program selection, attach, resolution of the
    table by name and to a descriptor, query of the table metadata, schema
    check): when the environment fails that step after the earlier ones
    succeeded, the run of [main] is the calls made so far, the diagnostic
    of the failure and, for a failure between open and attach, the release
    of the object; nothing else is called, and the status is EXIT_FAIL_BPF,
    the kernel/table failure, for every error but one: a schema mismatch
    gives EXIT_FAIL, the generic failure.  In particular a failed load is
    followed by no attach and no table lookup.  Polling begins when every
    step succeeded, and only then; [main] then does not return.  The exit
    codes come from a header that is not part of the sources: they are
    parameters, assumed non-zero as failure statuses are. *)
Theorem main_fatal_error_exits_before_polling :
  forall (K : Type) (env : libbpf K) (codes : exit_codes)
         (cycles fuel : nat) (cfg : config) (verbose : bool) (k : K),
    EXIT_FAIL codes <> 0 ->
    EXIT_FAIL_BPF codes <> 0 ->
    let r := main env codes cycles fuel cfg verbose k in
    (forall err k1,
        bpf_object__open_file env (filename cfg) k = (ErrPtr err, k1) ->
        r = ([EvOpenFile (filename cfg) (ErrPtr err)], k1,
             Some (EXIT_FAIL_BPF codes)))
    /\ (forall obj k1 e k2,
           opened env cfg k obj k1 ->
           bpf_object__load env obj k1 = (e, k2) ->
           e <> 0 ->
           r = ([EvOpenFile (filename cfg) (ValidPtr obj); EvLoad obj e;
                 load_failed_report (strerror env) cfg e; EvClose obj],
                bpf_object__close env obj k2, Some (EXIT_FAIL_BPF codes)))
    /\ (forall obj k2 k3,
           loaded env cfg k obj k2 ->
           bpf_object__next_program env obj k2 = (None, k3) ->
           r = ([EvOpenFile (filename cfg) (ValidPtr obj); EvLoad obj 0;
                 EvNextProgram obj None; no_program_report (strerror env) cfg;
                 EvClose obj],
                bpf_object__close env obj k3, Some (EXIT_FAIL_BPF codes)))
    /\ (forall obj prog k3 e k4,
           selected env cfg k obj prog k3 ->
           bpf_program__attach_tracepoint env prog "xdp" "xdp_exception" k3
           = (ErrPtr e, k4) ->
           r = ([EvOpenFile (filename cfg) (ValidPtr obj); EvLoad obj 0;
                 EvNextProgram obj (Some prog);
                 EvAttachTracepoint prog "xdp" "xdp_exception" (ErrPtr e);
                 attach_failed_report; EvClose obj],
                bpf_object__close env obj k4, Some (EXIT_FAIL_BPF codes)))
    /\ (forall obj prog link k4 k5,
           attached env cfg k obj prog link k4 ->
           bpf_object__find_map_by_name env obj "xdp_stats_map" k4
           = (None, k5) ->
           r = (attach_trace cfg obj prog link ++ loaded_banner verbose cfg
                  ++ [EvFindMapByName obj "xdp_stats_map" None; no_map_report],
                k5, Some (EXIT_FAIL_BPF codes)))
    /\ (forall obj prog link k4 map k5 fd k6,
           attached env cfg k obj prog link k4 ->
           bpf_object__find_map_by_name env obj "xdp_stats_map" k4
           = (Some map, k5) ->
           bpf_map__fd env map k5 = (fd, k6) ->
           fd < 0 ->
           r = (attach_trace cfg obj prog link ++ loaded_banner verbose cfg
                  ++ resolve_trace obj map fd,
                k6, Some (EXIT_FAIL_BPF codes)))
    /\ (forall obj prog link map fd k6 errno k7,
           resolved env cfg k obj prog link map fd k6 ->
           bpf_obj_get_info_by_fd env fd k6 = (inr errno, k7) ->
           r = (attach_trace cfg obj prog link ++ loaded_banner verbose cfg
                  ++ resolve_trace obj map fd
                  ++ [EvGetInfoByFd fd (inr errno);
                      no_info_report (strerror env) errno;
                      not_compatible_report],
                k7, Some (EXIT_FAIL_BPF codes)))
    /\ (forall obj prog link map fd k6 live k7 f,
           resolved env cfg k obj prog link map fd k6 ->
           bpf_obj_get_info_by_fd env fd k6 = (inl live, k7) ->
           spec_first_mismatch live map_expect = Some f ->
           r = (attach_trace cfg obj prog link ++ loaded_banner verbose cfg
                  ++ resolve_trace obj map fd
                  ++ [EvGetInfoByFd fd (inl live);
                      mismatch_report f (field_of f live)
                        (field_of f map_expect);
                      not_compatible_report],
                k7, Some (EXIT_FAIL codes)))
    /\ (forall obj prog link map fd k6 live k7,
           resolved env cfg k obj prog link map fd k6 ->
           bpf_obj_get_info_by_fd env fd k6 = (inl live, k7) ->
           spec_first_mismatch live map_expect = None ->
           events r
           = attach_trace cfg obj prog link ++ loaded_banner verbose cfg
               ++ resolve_trace obj map fd
               ++ [EvGetInfoByFd fd (inl live)] ++ polling_banner verbose live
               ++ events (stats_poll env cycles fuel fd (type live) 2 k7)
           /\ value r = None)
    /\ (In (EvSetlocale "LC_NUMERIC" "en_US") (events r) ->
        exists obj prog link map fd k6 live k7,
          resolved env cfg k obj prog link map fd k6
          /\ bpf_obj_get_info_by_fd env fd k6 = (inl live, k7)
          /\ spec_first_mismatch live map_expect = None)
    /\ (forall e,
           In e (events r) -> step_failed e ->
           (value r = Some (EXIT_FAIL_BPF codes)
            \/ value r = Some (EXIT_FAIL codes))
           /\ Forall (fun e' => ~ polling_event e') (events r)
           /\ exists t1 t2,
               events r = t1 ++ e :: t2 /\ Forall aftermath_event t2).
Proof.
  intros K env codes cycles fuel cfg verbose k Hfail Hbpf r. subst r.
  pose proof (proj1 (main_failed_step_ends_run K env codes cycles fuel cfg
                       verbose k Hfail Hbpf)) as Hstep.
  repeat lazymatch goal with |- _ /\ _ => split end.
  - apply main_open_fails.
  - apply main_load_fails.
  - apply main_no_program.
  - apply main_attach_fails.
  - apply main_no_map.
  - apply main_negative_descriptor.
  - now apply main_no_info.
  - now apply main_schema_mismatches.
  - intros obj prog link map fd k6 live k7.
    apply (main_polls env codes cycles fuel cfg verbose k obj prog link
             map fd k6 live k7).
  - now apply main_polling_requires_success.
  - intros e Hin Hf. destruct (Hstep e Hin Hf) as [Hv [_ [Hp Ht]]].
    split; [|split; assumption].
    rewrite Hv. unfold failure_code.
    destruct e; auto. destruct res; auto.
Qed.

(** The kernel rejects the program: the object is released, nothing is
    attached or looked up, and the status is EXIT_FAIL_BPF. *)
Lemma main_fatal_error_exits_before_polling_witness :
  EXIT_FAIL Sim.codes <> 0
  /\ EXIT_FAIL_BPF Sim.codes <> 0
  /\ opened Sim.env {| filename := "trace_prog_kern.o" |} Sim2.load_fails 100
       Sim2.load_fails
  /\ bpf_object__load Sim.env 100 Sim2.load_fails = (-22, Sim2.load_fails)
  /\ main Sim.env Sim.codes 2 5 {| filename := "trace_prog_kern.o" |} true
       Sim2.load_fails
     = ([EvOpenFile "trace_prog_kern.o" (ValidPtr 100); EvLoad 100 (-22);
         EvPrintf stderr (ln "ERR: loading BPF-OBJ file(%s) (%d): %s")
           [ArgStr (Some "trace_prog_kern.o"); ArgInt (-22);
            ArgStr (Some "errno 22")];
         EvClose 100],
        Sim2.load_fails, Some 40).
Proof.
  assert (EXIT_FAIL Sim.codes <> 0) as H1 by (simpl; lia).
  assert (EXIT_FAIL_BPF Sim.codes <> 0) as H2 by (simpl; lia).
  split; [exact H1|]. split; [exact H2|].
  split; [reflexivity|]. split; [reflexivity|].
  refine (proj1 (proj2 (main_fatal_error_exits_before_polling
                          Sim.world Sim.env Sim.codes 2 5
                          {| filename := "trace_prog_kern.o" |} true
                          Sim2.load_fails H1 H2))
            100 Sim2.load_fails (-22) Sim2.load_fails eq_refl eq_refl _).
  lia.
Defined.

(** Four errors of four kinds, in the load, the program selection, the
    attach and the table resolution, and one exit status: the status does
    not tell the errors apart. *)
Lemma main_exit_status_shared :
  (In (EvLoad 100 (-22))
      (events (main Sim.env Sim.codes 2 5
                 {| filename := "trace_prog_kern.o" |} false
                 Sim2.load_fails))
   /\ value (main Sim.env Sim.codes 2 5
               {| filename := "trace_prog_kern.o" |} false
               Sim2.load_fails)
      = Some 40)
  /\ (In (EvNextProgram 100 None)
         (events (main Sim.env Sim.codes 2 5
                    {| filename := "trace_prog_kern.o" |} false
                    Sim2.no_prog))
      /\ value (main Sim.env Sim.codes 2 5
                  {| filename := "trace_prog_kern.o" |} false
                  Sim2.no_prog)
         = Some 40)
  /\ (In (EvAttachTracepoint 200 "xdp" "xdp_exception" (ErrPtr (-2)))
         (events (main Sim.env Sim.codes 2 5
                    {| filename := "trace_prog_kern.o" |} false
                    Sim2.attach_fails))
      /\ value (main Sim.env Sim.codes 2 5
                  {| filename := "trace_prog_kern.o" |} false
                  Sim2.attach_fails)
         = Some 40)
  /\ (In (EvFindMapByName 100 "xdp_stats_map" None)
         (events (main Sim.env Sim.codes 2 5
                    {| filename := "trace_prog_kern.o" |} false
                    Sim2.no_map))
      /\ value (main Sim.env Sim.codes 2 5
                  {| filename := "trace_prog_kern.o" |} false
                  Sim2.no_map)
         = Some 40).
Proof.
  unfold events, value. simpl.
  repeat split; tauto.
Qed.

(** ** The array of per-CPU slots *)

(** X20: the result of the query of the CPU count is not checked.  When
    it is an error code, a negative [int], the number of slots it makes
    as an [unsigned int] is 2^31 or more and the array takes 16 GiB or
    more: unless the stack can grow by that much the process is killed,
    and a scan is the query and nothing else, whatever the fuel: no key is
    asked for, nothing is printed, and the caller gets nothing back. *)
Theorem stats_print_killed_by_failed_cpu_query :
  forall (K : Type) (env : libbpf K) (fuel : nat) (map_fd : Z) (k : K)
         (n : Z) (k1 : K),
    libbpf_num_possible_cpus env k = (n, k1) ->
    - 2 ^ 31 <= n < 0 ->
    stack_room env k1 < 2 ^ 34 ->
    stats_print env fuel map_fd k = ([EvNumPossibleCpus n], k1, None).
Proof.
  intros K env fuel map_fd k n k1 Hq Hn Hroom.
  pose proof (stats_print_killed env fuel map_fd k) as H.
  rewrite Hq in H. cbn [fst snd] in H. apply H.
  assert (to_u32 n = n + 2 ^ 32) as ->.
  { unfold to_u32. symmetry. apply (Z.mod_unique n (2 ^ 32) (-1)); lia. }
  lia.
Qed.

Lemma stats_print_killed_by_failed_cpu_query_witness :
  stats_print Sim.env 5 5 Sim2.no_cpus
  = ([EvNumPossibleCpus (-1)], Sim2.no_cpus, None).
Proof.
  apply (stats_print_killed_by_failed_cpu_query Sim.world Sim.env 5 5
           Sim2.no_cpus (-1) Sim2.no_cpus).
  - reflexivity.
  - lia.
  - simpl. lia.
Defined.

Lemma copy_out_short (written buffer : list Z) :
  (List.length written <= List.length buffer)%nat ->
  copy_out written buffer = written ++ skipn (List.length written) buffer.
Proof.
  revert written. induction buffer as [|old buffer IH]; intros written H.
  - destruct written; [reflexivity|simpl in H; lia].
  - destruct written as [|v written]; [reflexivity|].
    simpl. f_equal. apply IH. simpl in H. lia.
Qed.

Lemma slot_sum_app (l1 l2 : list Z) :
  slot_sum (l1 ++ l2) = slot_sum l1 + slot_sum l2.
Proof. induction l1 as [|v l1 IH]; simpl; lia. Qed.

(** X21: the loop sums the whole array, whatever the read wrote.  When a
    read writes fewer slots than the array has (a table that is not a
    per-CPU one gives a single slot, and [main] does not check the type of
    the table), the total printed is the sum of the slots written and of
    what the other slots of the array held before: the slots of an earlier
    read, or what was on the stack. *)
Theorem scan_sums_slots_not_written :
  forall (K : Type) (env : libbpf K) (map_fd nr_cpus : Z) (l : scan_locals)
         (k k1 k2 : K) (key1 : Z) (written : list Z),
    Z.of_nat (List.length (values l)) = nr_cpus ->
    bpf_map_get_next_key env map_fd (deref (prev_keyp l) l) k = (inl key1, k1) ->
    bpf_map_lookup_elem env map_fd key1 k1 = (Some written, k2) ->
    (List.length written <= List.length (values l))%nat ->
    In (EvPrintf stdout "%s (%llu) "
          [ArgStr (fst (if_indextoname env (to_u32 key1) k2));
           ArgInt ((slot_sum written
                    + slot_sum (skipn (List.length written) (values l)))
                   mod 2 ^ 64)])
       (events (scan_body env map_fd nr_cpus l k)).
Proof.
  intros K env map_fd nr_cpus l k k1 k2 key1 written Hlen Hnext Hread Hshort.
  rewrite scan_body_run. cbv zeta. rewrite Hnext, Hread.
  destruct (if_indextoname env (to_u32 key1) k2) as [dev k3].
  rewrite <- Hlen, <- (copy_out_length written (values l)).
  rewrite sum_values_slot_sum, copy_out_short by exact Hshort.
  rewrite slot_sum_app.
  unfold events, to_u64. simpl. tauto.
Qed.

(** Key 1 was read with the slots 10 and 20; the read of key 2 writes the
    slot 5 alone: its total is 25. *)
Lemma scan_sums_slots_not_written_witness :
  In (EvPrintf stdout "%s (%llu) " [ArgStr (Some "eth0"); ArgInt 25])
     (events (scan_body Sim.env 5 2
                {| key := 1; prev_keyp := AddrOfKey; values := [10; 20] |}
                Sim2.short_second)).
Proof.
  apply (scan_sums_slots_not_written Sim.world Sim.env 5 2
           {| key := 1; prev_keyp := AddrOfKey; values := [10; 20] |}
           Sim2.short_second Sim2.short_second Sim2.short_second 2 [5]).
  - reflexivity.
  - reflexivity.
  - reflexivity.
  - simpl. lia.
Defined.

(** A table that is not a per-CPU one passes the check of [main], and its
    totals are what the stack held: 10 and 5 are printed as 7011 and
    7006. *)
Example stats_print_plain_hash :
  forall sep,
    output sep stdout (events (stats_print Sim.env 5 5 Sim2.plain_hash))
    = ln "lo (7011) eth0 (7006) ".
Proof. intros sep. reflexivity. Qed.

Lemma scan_body_array_length {K : Type} (env : libbpf K) map_fd nr_cpus l k :
  match value (scan_body env map_fd nr_cpus l k) with
  | Some (_, l') => List.length (values l') = List.length (values l)
  | None => False
  end.
Proof.
  rewrite scan_body_run. cbv zeta.
  destruct (bpf_map_get_next_key env map_fd (deref (prev_keyp l) l) k)
    as [[key'|e] k1]; [|reflexivity].
  destruct (bpf_map_lookup_elem env map_fd key' k1) as [[vs|] k2];
    [|reflexivity].
  destruct (if_indextoname env (to_u32 key') k2) as [dev k3].
  unfold value. cbn [snd values]. apply copy_out_length.
Qed.

Lemma fold_nth_default (values : list Z) (d : Z) :
  forall (idx : list nat) (acc : Z),
    Forall (fun i => (i < List.length values)%nat) idx ->
    fold_left (fun total i => to_u64 (total + nth i values d)) idx acc
    = fold_left (fun total i => to_u64 (total + nth i values 0)) idx acc.
Proof.
  induction idx as [|i idx IH]; intros acc H; [reflexivity|].
  simpl. rewrite (nth_indep values d 0) by (apply Forall_inv in H; exact H).
  apply IH. now apply Forall_inv_tail in H.
Qed.

(** X22: the array has as many slots as the CPU count makes, on entry and
    after every iteration, whatever the reads wrote; every index of the
    summing loop is then an index of the array: the total does not depend
    on what a read outside the array would give. *)
Theorem scan_array_keeps_its_slots :
  forall (K : Type) (env : libbpf K) (map_fd nr_cpus : Z),
    (forall k, List.length (stack_values env nr_cpus k) = Z.to_nat nr_cpus)
    /\ (forall n l k l',
           value (while_true n (scan_body env map_fd nr_cpus) l k) = Some l' ->
           List.length (values l') = List.length (values l))
    /\ (forall l d,
           List.length (values l) = Z.to_nat nr_cpus ->
           fold_left (fun total i => to_u64 (total + nth i (values l) d))
             (seq 0 (Z.to_nat nr_cpus)) 0
           = sum_values nr_cpus (values l)).
Proof.
  intros K env map_fd nr_cpus. split; [|split].
  - intros k. unfold stack_values. now rewrite length_map, length_seq.
  - induction n as [|n IH]; intros l k l'.
    + intros H. discriminate H.
    + rewrite while_true_unroll.
      pose proof (scan_body_array_length env map_fd nr_cpus l k) as Hb.
      destruct (scan_body env map_fd nr_cpus l k) as [[t1 k1] [[[|] l1]|]];
        unfold value in *; cbn [snd] in *; try contradiction.
      * specialize (IH l1 k1 l').
        destruct (while_true n _ l1 k1) as [[t2 k2] r]. cbn [snd] in *.
        intros H. rewrite (IH H). exact Hb.
      * intros H. injection H as <-. exact Hb.
  - intros l d Hlen. unfold sum_values. apply fold_nth_default.
    apply Forall_forall. intros i Hi. apply in_seq in Hi. lia.
Qed.

(** The array still has its two slots after a scan in which a read wrote
    one. *)
Lemma scan_array_keeps_its_slots_witness :
  exists l',
    value (while_true 3 (scan_body Sim.env 5 2)
             (scan_entry 0 (stack_values Sim.env 2 Sim2.short_second))
             Sim2.short_second) = Some l'
    /\ List.length (values l') = 2%nat.
Proof.
  eexists. split; [reflexivity|].
  apply (proj1 (proj2 (scan_array_keeps_its_slots Sim.world Sim.env 5 2))
           3%nat (scan_entry 0 (stack_values Sim.env 2 Sim2.short_second))
           Sim2.short_second).
  reflexivity.
Defined.
